(** * InsForge backend: function gateway, request telemetry and lifecycle

    A shallow embedding of

    - [backend/src/api/middlewares/function-proxy.ts]
      ([functionProxyHandler], the edge-function gateway), and
    - the server entry point ([createApp] with its telemetry middleware,
      [initializeServer], [cleanup]),

    together with the properties the specification states about them.

    The JavaScript platform (exceptions, [JSON.stringify], the WHATWG [URL]
    class) is modelled in the modules [Js] and [Url]; collaborators whose code
    lives elsewhere ([FunctionService], [fetch], the subsystem singletons) are
    records of outcomes: a call either returns a value or throws. *)

From Stdlib Require Import ZArith Lia Ascii String DecimalString.
From stdpp Require Import base option list gmap strings.

Local Open Scope string_scope.
Local Open Scope Z_scope.

(* ===================================================================== *)
(** ** JavaScript values, exceptions and effects *)
(* ===================================================================== *)

Module Js.

(** A thrown value.  [error instanceof Error] holds for [ErrorInstance]; any
    other thrown value is kept through its [String(v)] rendering. *)
Inductive Exn :=
| ErrorInstance (name message : string)
| NonError (text : string).

Definition TypeError (message : string) : Exn := ErrorInstance "TypeError" message.

(** [String(error)]: [Error.prototype.toString] for error objects. *)
Definition String_of_exn (e : Exn) : string :=
  match e with
  | ErrorInstance name message =>
      if decide (name = EmptyString) then message
      else if decide (message = EmptyString) then name
      else name +:+ ": " +:+ message
  | NonError text => text
  end.

(** [error instanceof Error ? error.message : String(error)] *)
Definition error_text (e : Exn) : string :=
  match e with
  | ErrorInstance _ message => message
  | NonError _ => String_of_exn e
  end.

(** The completion of a call: a value or a thrown exception. *)
Inductive Outcome (A : Type) :=
| Return (a : A)
| Throw (e : Exn).
Arguments Return {A} a.
Arguments Throw {A} e.

(** Effectful code over a store [S] of observable effects.  A throw keeps the
    effects performed before it, as JavaScript does. *)
Definition Eff (S A : Type) : Type := S -> Outcome A * S.

#[global] Instance Eff_ret {S} : MRet (Eff S) := fun A a s => (Return a, s).
#[global] Instance Eff_bind {S} : MBind (Eff S) := fun A B f m s =>
  match m s with
  | (Return a, s') => f a s'
  | (Throw e, s') => (Throw e, s')
  end.

(** A call into a collaborator whose completion is already known. *)
Definition call {S A} (o : Outcome A) : Eff S A := fun s => (o, s).

(** An effect that cannot throw. *)
Definition effect {S} (f : S -> S) : Eff S unit := fun s => (Return tt, f s).

(** [try { body } catch (error) { handler(error) }] *)
Definition try_catch {S A} (body : Eff S A) (handler : Exn -> Eff S A) : Eff S A :=
  fun s =>
    match body s with
    | (Return a, s') => (Return a, s')
    | (Throw e, s') => handler e s'
    end.

(** *** Strings.  A JavaScript string is kept as its UTF-8 bytes, so that
    [Buffer.byteLength(s)] is the length of the byte string. *)

Definition Buffer_byteLength (s : string) : nat := String.length s.

Definition is_upper (c : ascii) : bool :=
  (65 <=? nat_of_ascii c)%nat && (nat_of_ascii c <=? 90)%nat.

Definition lower_ascii (c : ascii) : ascii :=
  if is_upper c then ascii_of_nat (nat_of_ascii c + 32) else c.

(** [s.toLowerCase()] on ASCII letters (header names are ASCII tokens). *)
Fixpoint toLowerCase (s : string) : string :=
  match s with
  | EmptyString => EmptyString
  | String c r => String (lower_ascii c) (toLowerCase r)
  end.

(** [s.includes(needle)] *)
Fixpoint includes (needle s : string) : bool :=
  String.prefix needle s ||
  match s with
  | EmptyString => false
  | String _ r => includes needle r
  end.

Definition hex_digit (n : nat) : ascii :=
  if (n <? 10)%nat then ascii_of_nat (48 + n) else ascii_of_nat (87 + n).

Definition HEX_digit (n : nat) : ascii :=
  if (n <? 10)%nat then ascii_of_nat (48 + n) else ascii_of_nat (55 + n).

(** Separator-joined concatenation, [parts.join(sep)]. *)
Fixpoint join (sep : string) (parts : list string) : string :=
  match parts with
  | [] => EmptyString
  | [p] => p
  | p :: rest => p +:+ sep +:+ join sep rest
  end.

(** *** Values *)

Inductive JsNumber :=
| Finite (z : Z)          (* an integer-valued number *)
| NaN | PosInfinity | NegInfinity.

(** Values a handler can hand to [res.send] / [res.json] or find in a parsed
    body.  Object graphs are trees whose leaves may point back to an
    enclosing object or array ([VAncestor]): that is a circular structure. *)
#[local] Set Warnings "-register-all".
Inductive JsValue :=
| VUndefined
| VNull
| VBool (b : bool)
| VNumber (n : JsNumber)
| VString (s : string)
| VBigInt (z : Z)
| VFunction
| VArray (items : list JsValue)
| VObject (props : list (string * JsValue))
| VAncestor.

Definition Z_to_string (z : Z) : string := NilZero.string_of_int (Z.to_int z).

(** [String(n)] for a number.  A finite number is an integer of magnitude
    below 10^21 here, which JavaScript prints with all its digits. *)
Definition Number_toString (n : JsNumber) : string :=
  match n with
  | Finite z => Z_to_string z
  | NaN => "NaN"
  | PosInfinity => "Infinity"
  | NegInfinity => "-Infinity"
  end.

Definition dquote : ascii := ascii_of_nat 34.
Definition backslash : ascii := ascii_of_nat 92.

(** One character of [QuoteJSONString]. *)
Definition quote_char (c : ascii) : string :=
  let n := nat_of_ascii c in
  if (n =? 34)%nat then String backslash (String dquote EmptyString)
  else if (n =? 92)%nat then String backslash (String backslash EmptyString)
  else if (n =? 8)%nat then String backslash "b"
  else if (n =? 12)%nat then String backslash "f"
  else if (n =? 10)%nat then String backslash "n"
  else if (n =? 13)%nat then String backslash "r"
  else if (n =? 9)%nat then String backslash "t"
  else if (n <? 32)%nat then
    String backslash ("u00" +:+ String (hex_digit (n / 16)) (String (hex_digit (n mod 16)) EmptyString))
  else String c EmptyString.

Fixpoint quote_chars (s : string) : string :=
  match s with
  | EmptyString => EmptyString
  | String c r => quote_char c +:+ quote_chars r
  end.

Definition QuoteJSONString (s : string) : string :=
  String dquote (quote_chars s +:+ String dquote EmptyString).

(** The elements of an array and the members of an object, for a given
    serialization of the values in them: [undefined] is [null] in an array
    and is left out of an object. *)
Section Composite.
Variable serialize : JsValue -> Outcome (option string).

Fixpoint serialize_elements (l : list JsValue) : Outcome (list string) :=
  match l with
  | [] => Return []
  | x :: r =>
      match serialize x with
      | Throw e => Throw e
      | Return o =>
          match serialize_elements r with
          | Throw e => Throw e
          | Return rs => Return (default "null" o :: rs)
          end
      end
  end.

Fixpoint serialize_members (l : list (string * JsValue)) : Outcome (list string) :=
  match l with
  | [] => Return []
  | (k, x) :: r =>
      match serialize x with
      | Throw e => Throw e
      | Return o =>
          match serialize_members r with
          | Throw e => Throw e
          | Return rs =>
              Return (match o with
                      | Some t => (QuoteJSONString k +:+ ":" +:+ t) :: rs
                      | None => rs
                      end)
          end
      end
  end.
End Composite.

(** [SerializeJSONProperty]: [None] is the [undefined] result. *)
Fixpoint SerializeJSONProperty (v : JsValue) : Outcome (option string) :=
  match v with
  | VUndefined | VFunction => Return None
  | VNull => Return (Some "null")
  | VBool b => Return (Some (if b then "true" else "false"))
  | VNumber (Finite z) => Return (Some (Z_to_string z))
  | VNumber _ => Return (Some "null")
  | VString s => Return (Some (QuoteJSONString s))
  | VBigInt _ => Throw (TypeError "Do not know how to serialize a BigInt")
  | VAncestor => Throw (TypeError "Converting circular structure to JSON")
  | VArray items =>
      match serialize_elements SerializeJSONProperty items with
      | Throw e => Throw e
      | Return parts => Return (Some ("[" +:+ join "," parts +:+ "]"))
      end
  | VObject props =>
      match serialize_members SerializeJSONProperty props with
      | Throw e => Throw e
      | Return parts => Return (Some ("{" +:+ join "," parts +:+ "}"))
      end
  end.

(** [JSON.stringify(value)] *)
Definition JSON_stringify (v : JsValue) : Outcome (option string) :=
  SerializeJSONProperty v.

(** The value reaches an enclosing object or array again. *)
Fixpoint circular (v : JsValue) : bool :=
  match v with
  | VAncestor => true
  | VArray items => existsb circular items
  | VObject props => existsb (fun kv => circular kv.2) props
  | _ => false
  end.

(** The value holds a BigInt somewhere. *)
Fixpoint holds_bigint (v : JsValue) : bool :=
  match v with
  | VBigInt _ => true
  | VArray items => existsb holds_bigint items
  | VObject props => existsb (fun kv => holds_bigint kv.2) props
  | _ => false
  end.

(** [JSON.stringify] yields a text for the value. *)
Definition serializable (v : JsValue) : Prop :=
  exists text, JSON_stringify v = Return (Some text).

(** A winston-style log record. *)
Inductive Level := Debug | Info | Error.

Record LogEntry := mkLog {
  level : Level;
  message : string;
  meta : list (string * JsValue)
}.

Definition is_error (entry : LogEntry) : bool :=
  match level entry with Error => true | _ => false end.

(** The entries written with [logger.error]. *)
Definition errors_of (entries : list LogEntry) : list LogEntry :=
  filter (fun entry => is_error entry = true) entries.

End Js.

Import Js.

(* ===================================================================== *)
(** ** The WHATWG [URL] class, as far as the gateway uses it *)
(* ===================================================================== *)

Module Url.

(** A parsed URL with a special scheme.  [host] is what the [host] getter
    returns: the serialized host, followed by [:port] when the port is not
    the scheme's default. *)
Record URL := mkURL {
  scheme : string;
  userinfo : string;
  host : string;
  path : list string;
  query : option string;
  fragment : option string
}.

Definition code (c : ascii) : nat := nat_of_ascii c.

(** *** Percent-encode sets (URL Standard, section 1.3), on UTF-8 bytes

    The query set is the C0 control set with space, the double quote, [#],
    [<] and [>]; a special scheme adds the apostrophe to it. *)

Definition in_c0_control_set (c : ascii) : bool :=
  (code c <? 32)%nat || (126 <? code c)%nat.

Definition in_query_set (c : ascii) : bool :=
  in_c0_control_set c ||
  bool_decide (code c ∈ [32; 34; 35; 60; 62]%nat).

Definition in_special_query_set (c : ascii) : bool :=
  in_query_set c || (code c =? 39)%nat.

Definition in_path_set (c : ascii) : bool :=
  in_query_set c ||
  bool_decide (code c ∈ [63; 94; 96; 123; 125]%nat).

Definition in_fragment_set (c : ascii) : bool :=
  in_c0_control_set c ||
  bool_decide (code c ∈ [32; 34; 60; 62; 96]%nat).

Definition percent_encode_byte (c : ascii) : string :=
  String "%" (String (HEX_digit (code c / 16))
                     (String (HEX_digit (code c mod 16)) EmptyString)).

Fixpoint percent_encode (set : ascii -> bool) (s : string) : string :=
  match s with
  | EmptyString => EmptyString
  | String c r =>
      (if set c then percent_encode_byte c else String c EmptyString)
      +:+ percent_encode set r
  end.

(** *** Input preparation of the basic URL parser *)

Definition is_c0_or_space (c : ascii) : bool := (code c <=? 32)%nat.

Definition is_tab_or_newline (c : ascii) : bool :=
  bool_decide (code c ∈ [9; 10; 13]%nat).

Fixpoint strip_leading (s : string) : string :=
  match s with
  | String c r => if is_c0_or_space c then strip_leading r else s
  | EmptyString => EmptyString
  end.

Fixpoint strip_trailing (s : string) : string :=
  match s with
  | EmptyString => EmptyString
  | String c r =>
      match strip_trailing r with
      | EmptyString => if is_c0_or_space c then EmptyString else String c EmptyString
      | r' => String c r'
      end
  end.

Fixpoint remove_tab_newline (s : string) : string :=
  match s with
  | EmptyString => EmptyString
  | String c r =>
      if is_tab_or_newline c then remove_tab_newline r
      else String c (remove_tab_newline r)
  end.

Definition prepare (input : string) : string :=
  remove_tab_newline (strip_trailing (strip_leading input)).

(** *** Path, query and fragment states for a special scheme *)

Definition is_separator (c : ascii) : bool :=
  bool_decide (code c ∈ [47; 92]%nat).

Definition is_single_dot (buffer : string) : bool :=
  bool_decide (toLowerCase buffer ∈ ["."; "%2e"]).

Definition is_double_dot (buffer : string) : bool :=
  bool_decide (toLowerCase buffer ∈ [".."; ".%2e"; "%2e."; "%2e%2e"]).

(** "Shorten a path" for a scheme other than [file]. *)
Definition shorten (p : list string) : list string := removelast p.

(** The path state at the end of a segment.  [followed] tells whether the
    segment was ended by a separator (and not by [?], [#] or the end). *)
Definition end_segment (followed : bool) (p : list string) (buffer : string)
  : list string :=
  if is_double_dot buffer then
    (if followed then shorten p else shorten p ++ [EmptyString])
  else if is_single_dot buffer then
    (if followed then p else p ++ [EmptyString])
  else p ++ [buffer].

(** Splits at the first [#]. *)
Fixpoint split_fragment (s : string) : string * option string :=
  match s with
  | EmptyString => (EmptyString, None)
  | String c r =>
      if (code c =? 35)%nat then (EmptyString, Some r)
      else let '(q, f) := split_fragment r in (String c q, f)
  end.

Definition fragment_state (input : string) : string :=
  percent_encode in_fragment_set input.

(** Query state of the constructor: [#] ends the query. *)
Definition query_state (input : string) : string * option string :=
  let '(q, f) := split_fragment input in
  (percent_encode in_special_query_set q, fragment_state <$> f).

Fixpoint path_state (b : URL) (input : string) (p : list string) (buffer : string)
  : URL :=
  match input with
  | EmptyString =>
      mkURL (scheme b) (userinfo b) (host b) (end_segment false p buffer) None None
  | String c rest =>
      if is_separator c then path_state b rest (end_segment true p buffer) EmptyString
      else if (code c =? 63)%nat then
        let '(q, f) := query_state rest in
        mkURL (scheme b) (userinfo b) (host b) (end_segment false p buffer) (Some q) f
      else if (code c =? 35)%nat then
        mkURL (scheme b) (userinfo b) (host b) (end_segment false p buffer) None
              (Some (fragment_state rest))
      else
        path_state b rest p
          (buffer +:+ (if in_path_set c then percent_encode_byte c
                       else String c EmptyString))
  end.

(** *** Getters, the [search] setter and the serializer *)

Definition search (u : URL) : string :=
  match query u with
  | None | Some EmptyString => EmptyString
  | Some q => "?" +:+ q
  end.

Definition without_question_mark (value : string) : string :=
  match value with
  | String c r => if (code c =? 63)%nat then r else value
  | EmptyString => EmptyString
  end.

(** [url.search = value]: the query state runs as a state override, where
    [#] no longer ends the query and is percent-encoded. *)
Definition set_search (u : URL) (value : string) : URL :=
  let q :=
    match value with
    | EmptyString => None
    | _ => Some (percent_encode in_special_query_set
                   (remove_tab_newline (without_question_mark value)))
    end in
  mkURL (scheme u) (userinfo u) (host u) (path u) q (fragment u).

Fixpoint serialize_path (p : list string) : string :=
  match p with
  | [] => EmptyString
  | seg :: r => "/" +:+ seg +:+ serialize_path r
  end.

(** [url.href], which is also [url.toString()]. *)
Definition href (u : URL) : string :=
  scheme u +:+ "://"
  +:+ (if decide (userinfo u = EmptyString) then EmptyString else userinfo u +:+ "@")
  +:+ host u
  +:+ serialize_path (path u)
  +:+ (match query u with Some q => "?" +:+ q | None => EmptyString end)
  +:+ (match fragment u with Some f => "#" +:+ f | None => EmptyString end).

Definition starts_with_separator (s : string) : bool :=
  match s with
  | String c _ => is_separator c
  | EmptyString => false
  end.

(** The constructor [new URL(input, base)].

    The part written out here is the one the gateway exercises: an input
    that starts with a single [/] resolved against a base with a special
    scheme other than [file] (http, https, ws, wss, ftp).  The two platform
    functions cover the rest of the standard:
    - [parse_special base] is the record of [base] when it parses as an
      absolute URL with such a scheme, and [None] otherwise;
    - [URL_other input base] is the constructor on every other input: a base
      that does not parse or has another scheme, an input that names its own
      scheme or authority. *)
Section Constructor.
Variable parse_special : string -> option URL.
Variable URL_other : string -> string -> Outcome URL.

Definition URL_new (input base : string) : Outcome URL :=
  match prepare input, parse_special base with
  | String c rest, Some b =>
      if (code c =? 47)%nat && negb (starts_with_separator rest)
      then Return (path_state b rest [] EmptyString)
      else URL_other input base
  | _, _ => URL_other input base
  end.
End Constructor.

(** Known results of the URL Standard for the addresses used as running
    examples: the default local runtime, the backend's own address as a
    [Host] header produces it, and a managed deployment. *)
Definition parse_special_sample (base : string) : option URL :=
  if decide (base = "http://localhost:7133") then
    Some (mkURL "http" EmptyString "localhost:7133" [EmptyString] None None)
  else if decide (base = "http://localhost:7130") then
    Some (mkURL "http" EmptyString "localhost:7130" [EmptyString] None None)
  else if decide (base = "http://localhost") then
    Some (mkURL "http" EmptyString "localhost" [EmptyString] None None)
  else if decide (base = "https://fn-prod.example.net") then
    Some (mkURL "https" EmptyString "fn-prod.example.net" [EmptyString] None None)
  else None.

Definition URL_other_sample (input base : string) : Outcome URL :=
  Throw (TypeError "Invalid URL").

Definition URL_sample := URL_new parse_special_sample URL_other_sample.

(** *** Inputs the parser leaves as they are *)

Fixpoint all_chars (P : ascii -> bool) (s : string) : bool :=
  match s with
  | EmptyString => true
  | String c r => P c && all_chars P r
  end.

(** A character that input preparation keeps wherever it stands. *)
Definition no_blank (c : ascii) : bool :=
  negb (is_c0_or_space c) && negb (is_tab_or_newline c).

(** A character a path segment keeps: outside the path percent-encode set
    and not a separator. *)
Definition plain_slug_char (c : ascii) : bool :=
  negb (in_path_set c) && negb (is_separator c).

(** A character a query keeps. *)
Definition plain_query_char (c : ascii) : bool :=
  negb (in_special_query_set c).

(** A character of the path of a request line: printable, not a space, and
    before the query or fragment. *)
Definition request_path_char (c : ascii) : bool :=
  (32 <? code c)%nat && negb (code c =? 63)%nat && negb (code c =? 35)%nat.

(** Scheme and authority as [href] prints them. *)
Definition origin_text (u : URL) : string :=
  scheme u +:+ "://"
  +:+ (if decide (userinfo u = EmptyString) then EmptyString else userinfo u +:+ "@")
  +:+ host u.

(** The query of a request line, when it has one, as written: [?] and the
    text after it. *)
Definition query_suffix (q : option string) : string :=
  match q with
  | Some q => "?" +:+ q
  | None => EmptyString
  end.



(** The same as [search] shows it: a lone [?] is dropped. *)
Definition search_text (q : option string) : string :=
  match q with
  | None | Some EmptyString => EmptyString
  | Some q => "?" +:+ q
  end.

End Url.

(* ===================================================================== *)
(** ** The function gateway: [function-proxy.ts] *)
(* ===================================================================== *)

Module Gateway.
Import Url.

(** A value of [req.headers]: [string | string[] | undefined]. *)
Inductive HeaderValue :=
| Single (v : string)
| Multiple (vs : list string)
| Absent.

(** The Express request, as far as the handler reads it. *)
Record Request := mkRequest {
  method : string;
  url : string;                              (* [req.url] *)
  slug : string;                             (* [req.params.slug] *)
  headers : list (string * HeaderValue);     (* [Object.entries(req.headers)] *)
  body : JsValue                             (* [req.body], already parsed *)
}.

(** The arguments of the [fetch] call. *)
Record FetchRequest := mkFetch {
  f_url : string;
  f_method : string;
  f_headers : gmap string string;
  f_body : option string                     (* [None] is [undefined] *)
}.

(** The upstream response: its header lines as received and the completion
    of [response.arrayBuffer()]. *)
Record UpstreamResponse := mkUpstream {
  status : nat;
  raw_headers : list (string * string);
  arrayBuffer : Outcome (list Byte.byte)
}.

(** Collaborators and configuration at the time of one call. *)
Record World := mkWorld {
  DENO_RUNTIME_URL : option string;          (* [process.env.DENO_RUNTIME_URL] *)
  getInstance : Outcome unit;                (* [FunctionService.getInstance()] *)
  isSubhostingConfigured : Outcome bool;
  getDeploymentUrl : Outcome (option string);  (* [None] is [null] *)
  fetch : FetchRequest -> Outcome UpstreamResponse
}.

(** The Express response as the handler leaves it: the status and the
    headers that [res.status] and [res.set] have stored, and the argument of
    [res.send] or [res.json].  What Express does to write the response out
    of these (it adds [Content-Length] and an [ETag], answers 304 to a fresh
    conditional request, sends no body with 204 or 304) is Express's own and
    is not part of this record. *)
Inductive Body :=
| BodyBuffer (bytes : list Byte.byte)        (* [res.send(buffer)] *)
| BodyJson (v : JsValue).                    (* [res.json(value)] *)

Record Res := mkRes {
  statusCode : nat;
  res_headers : gmap string string;          (* keyed by lower-cased name *)
  sent : option Body
}.

(** The observable effects of a call: log records and the response. *)
Record Sink := mkSink {
  logs : list LogEntry;
  res : Res
}.

Definition log (l : Level) (msg : string) (m : list (string * JsValue)) : Eff Sink unit :=
  effect (fun s => mkSink (logs s ++ [mkLog l msg m]) (res s)).

Definition on_res (f : Res -> Res) : Eff Sink unit :=
  effect (fun s => mkSink (logs s) (f (res s))).

(** [res.status(code)] *)
Definition res_status (code : nat) : Eff Sink unit :=
  on_res (fun r => mkRes code (res_headers r) (sent r)).

(** [res.set] of Express.  Header names are case-insensitive.  A value set
    under [Content-Type] is completed before it is stored: Express appends a
    charset to a text or JSON type that names none.  The completion is
    Express's own; it is taken as a function [stored_content_type] of the
    value.  Any other value is stored as it is given. *)
Section Response.
Variable stored_content_type : string -> string.

(** [res.set(field, value)] *)
Definition setHeader (store : gmap string string) (field value : string)
  : gmap string string :=
  <[toLowerCase field :=
      if decide (toLowerCase field = "content-type") then stored_content_type value
      else value]> store.

Definition res_set (field value : string) : Eff Sink unit :=
  on_res (fun r => mkRes (statusCode r) (setHeader (res_headers r) field value) (sent r)).

(** [res.set(object)]: one [set] per own property, in order. *)
Definition set_all (obj : list (string * string)) (store : gmap string string)
  : gmap string string :=
  foldl (fun acc kv => setHeader acc kv.1 kv.2) store obj.

Definition res_set_object (obj : list (string * string)) : Eff Sink unit :=
  on_res (fun r => mkRes (statusCode r) (set_all obj (res_headers r)) (sent r)).

End Response.

Definition res_send (bytes : list Byte.byte) : Eff Sink unit :=
  on_res (fun r => mkRes (statusCode r) (res_headers r) (Some (BodyBuffer bytes))).

Definition res_json (v : JsValue) : Eff Sink unit :=
  on_res (fun r => mkRes (statusCode r) (res_headers r) (Some (BodyJson v))).

(** *** [response.headers] of the fetch API *)

(** [headers.get(name)]: the values of all lines of that name, joined. *)
Definition Headers_get (raw : list (string * string)) (name : string) : option string :=
  match filter (fun kv => toLowerCase kv.1 = toLowerCase name) raw with
  | [] => None
  | l => Some (join ", " (l.*2))
  end.

Definition Headers_keys (raw : list (string * string)) : list string :=
  remove_dups ((fun kv => toLowerCase kv.1) <$> raw).

(** [headers.entries()]: one pair per lower-cased name. *)
Definition Headers_entries (raw : list (string * string)) : list (string * string) :=
  (fun k => (k, default EmptyString (Headers_get raw k))) <$> Headers_keys raw.

(** *** The handler, block by block *)

Definition default_runtime : string := "http://localhost:7133".

(** [x || fallback] for a string that may be [undefined] or [null]. *)
Definition or_else (x : option string) (fallback : string) : string :=
  match x with
  | Some (String c r) => String c r
  | _ => fallback
  end.

(** [process.env.DENO_RUNTIME_URL || 'http://localhost:7133'] *)
Definition localRuntime (w : World) : string :=
  or_else (DENO_RUNTIME_URL w) default_runtime.

(** [(isSubhostingConfigured() && (await getDeploymentUrl())) || localRuntime] *)
Definition resolveBaseUrl (w : World) : Eff Sink string :=
  configured ← call (isSubhostingConfigured w);
  deployment ← (if configured : bool then call (getDeploymentUrl w) else mret None);
  mret (or_else deployment (localRuntime w)).

(** The loop over [Object.entries(req.headers)] keeping string values. *)
Definition string_headers (hs : list (string * HeaderValue)) : gmap string string :=
  foldl (fun acc kv => match kv.2 with
                       | Single v => <[kv.1 := v]> acc
                       | _ => acc
                       end) ∅ hs.

(** [req.headers[name]]: the property of that name, if any. *)
Definition header (hs : list (string * HeaderValue)) (name : string) : HeaderValue :=
  default Absent (last (filter (fun kv => kv.1 = name) hs).*2).

(** [`http://${req.headers.host || 'localhost'}`]: an empty string and
    [undefined] are falsy, an array is truthy and prints its items joined
    by commas. *)
Definition incoming_base (req : Request) : string :=
  "http://" +:+
  match header (headers req) "host" with
  | Single (String c r) => String c r
  | Multiple vs => join "," vs
  | _ => "localhost"
  end.

Definition bodyless : list string := ["GET"; "HEAD"].

(** [['GET','HEAD'].includes(req.method) ? undefined : JSON.stringify(req.body)] *)
Definition request_body (req : Request) : Outcome (option string) :=
  if bool_decide (method req ∈ bodyless) then Return None
  else JSON_stringify (body req).

Definition excluded_headers : list string :=
  ["transfer-encoding"; "content-length"; "connection"; "content-encoding"].

(** The loop over [response.headers.entries()]. *)
Definition relay_headers (raw : list (string * string)) : list (string * string) :=
  filter (fun kv => kv.1 ∉ excluded_headers) (Headers_entries raw).

(** The body of the structured error response. *)
Definition gateway_error_body (e : Exn) : JsValue :=
  VObject [("error", VString "GATEWAY_ERROR");
           ("message", VString "Failed to reach edge function runtime");
           ("details", VString (error_text e))].

Section Handler.
Variable parse_special : string -> option URL.
Variable URL_other : string -> string -> Outcome URL.
Variable stored_content_type : string -> string.

Abbreviation new_URL := (URL_new parse_special URL_other).

(** Lines 13-41: everything up to the arguments of [fetch]. *)
Definition upstream_request (w : World) (req : Request) : Eff Sink FetchRequest :=
  _ ← call (getInstance w);
  baseUrl ← resolveBaseUrl w;
  targetUrl ← call (new_URL ("/" +:+ slug req) baseUrl);
  incomingUrl ← call (new_URL (url req) (incoming_base req));
  let targetUrl := set_search targetUrl (search incomingUrl) in
  let headers := <["host" := host targetUrl]> (string_headers (headers req)) in
  _ ← log Debug "Proxying function request"
        [("slug", VString (slug req)); ("targetUrl", VString (href targetUrl))];
  body ← call (request_body req);
  mret (mkFetch (href targetUrl) (method req) headers body).

(** Lines 43-61: reading the upstream response and relaying it. *)
Definition relay (response : UpstreamResponse) : Eff Sink unit :=
  responseBody ← call (arrayBuffer response);
  let responseHeaders := relay_headers (raw_headers response) in
  _ ← res_status (status response);
  _ ← res_set_object stored_content_type responseHeaders;
  _ ← res_set stored_content_type "Access-Control-Allow-Origin" "*";
  res_send responseBody.

(** The [try] block. *)
Definition proxy (w : World) (req : Request) : Eff Sink unit :=
  request ← upstream_request w req;
  response ← call (fetch w request);
  relay response.

(** The [catch] block. *)
Definition gateway_error (req : Request) (error : Exn) : Eff Sink unit :=
  _ ← log Error "Failed to proxy function"
        [("slug", VString (slug req)); ("error", VString (String_of_exn error))];
  _ ← res_status 502;
  res_json (gateway_error_body error).

Definition functionProxyHandler (w : World) (req : Request) : Eff Sink unit :=
  try_catch (proxy w req) (gateway_error req).

(** The three places where the [try] block can fail, in the words of the
    specification: while resolving the target (up to the arguments of
    [fetch]), while connecting, and while reading the response. *)
Inductive proxy_failure (w : World) (req : Request) (s0 : Sink) : Exn -> Prop :=
| fails_resolving e s :
    upstream_request w req s0 = (Throw e, s) ->
    proxy_failure w req s0 e
| fails_connecting request s e :
    upstream_request w req s0 = (Return request, s) ->
    fetch w request = Throw e ->
    proxy_failure w req s0 e
| fails_reading request s response e :
    upstream_request w req s0 = (Return request, s) ->
    fetch w request = Return response ->
    arrayBuffer response = Throw e ->
    proxy_failure w req s0 e.

End Handler.



(** *** The completion of a [Content-Type] value in Express 4

    [res.set] leaves a value that matches [/;\s*charset\s*=/] as it is;
    otherwise, when the type before the first [;] matches
    [/^text\/|^application\/(javascript|json)/], it appends
    [; charset=utf-8].  White space is the ASCII one here. *)
Definition is_space (c : ascii) : bool :=
  bool_decide (Url.code c ∈ [9; 10; 11; 12; 13; 32]%nat).

Fixpoint skip_space (s : string) : string :=
  match s with
  | String c r => if is_space c then skip_space r else s
  | EmptyString => EmptyString
  end.

(** [s] without the prefix [p], when it has that prefix. *)
Fixpoint after_prefix (p s : string) : option string :=
  match p, s with
  | EmptyString, _ => Some s
  | String a p', String b s' => if decide (a = b) then after_prefix p' s' else None
  | String _ _, EmptyString => None
  end.

(** [\s*charset\s*=] at the start of [s]. *)
Definition charset_here (s : string) : bool :=
  match after_prefix "charset" (skip_space s) with
  | Some r =>
      match skip_space r with
      | String c _ => (Url.code c =? 61)%nat
      | EmptyString => false
      end
  | None => false
  end.

Fixpoint names_charset (value : string) : bool :=
  match value with
  | EmptyString => false
  | String c r => ((Url.code c =? 59)%nat && charset_here r) || names_charset r
  end.

(** [value.split(';')[0]] *)
Fixpoint before_semicolon (value : string) : string :=
  match value with
  | EmptyString => EmptyString
  | String c r => if (Url.code c =? 59)%nat then EmptyString else String c (before_semicolon r)
  end.

Definition has_text_charset (type : string) : bool :=
  String.prefix "text/" type
  || String.prefix "application/javascript" type
  || String.prefix "application/json" type.

Definition content_type_express4 (value : string) : string :=
  if names_charset value then value
  else if has_text_charset (before_semicolon value) then value +:+ "; charset=utf-8"
  else value.

End Gateway.

(* ===================================================================== *)
(** ** The telemetry middleware of [createApp] *)
(* ===================================================================== *)

Module Telemetry.

(** The argument of [res.send]: a buffer or any other value. *)
Inductive SendArg :=
| Buffer (bytes : list Byte.byte)
| Value (v : JsValue).

(** A call of one of the two wrapped emitters. *)
Inductive Emission :=
| ViaSend (data : SendArg)
| ViaJson (data : JsValue).

(** The request: its URL as received, and the fields the [finish] listener
    reads.  [req.path] is read when the response has finished: a router
    mounted with [use] strips its mount point from [req.url] while it
    handles the request, so for a request answered below [/api/storage] it
    is the path below that mount point. *)
Record Req := mkReq {
  method : string;
  originalUrl : string;              (* [req.originalUrl] *)
  path : string;                     (* [req.path], in the [finish] listener *)
  ip : option string;                (* [req.ip] *)
  remoteAddress : option string;     (* [req.socket.remoteAddress] *)
  userAgent : option string          (* [req.headers['user-agent']] *)
}.

(** Express's own [send] and [json], saved before they are replaced. *)
Record Express := mkExpress {
  originalSend : SendArg -> Outcome unit;
  originalJson : JsValue -> Outcome unit
}.

(** The closure state of one request, with what reached Express and what was
    logged. *)
Record Tele := mkTele {
  responseSize : nat;
  emitted : list Emission;
  tlogs : list LogEntry
}.

Definition initial : Tele := mkTele 0 [] [].

Definition set_size (n : nat) : Eff Tele unit :=
  effect (fun t => mkTele n (emitted t) (tlogs t)).

Definition pass_on (e : Emission) : Eff Tele unit :=
  effect (fun t => mkTele (responseSize t) (emitted t ++ [e]) (tlogs t)).

(** [Buffer.byteLength(x)] where [x] may be [undefined]. *)
Definition byteLength_of (x : option string) : Outcome nat :=
  match x with
  | Some s => Return (Buffer_byteLength s)
  | None => Throw (TypeError "The string argument must be of type string or an instance of Buffer or ArrayBuffer")
  end.

(** [try { responseSize = Buffer.byteLength(JSON.stringify(data)) }
     catch { responseSize = 0 }] *)
Definition measure_serialized (data : JsValue) : Eff Tele unit :=
  try_catch
    (text ← call (JSON_stringify data);
     n ← call (byteLength_of text);
     set_size n)
    (fun _ => set_size 0).

(** The replacement of [res.send]. *)
Definition send (x : Express) (data : SendArg) : Eff Tele unit :=
  _ ← match data with
      | Value VUndefined | Value VNull => mret tt
      | Value (VString s) => set_size (Buffer_byteLength s)
      | Buffer bytes => set_size (length bytes)
      | Value (VNumber n) => set_size (Buffer_byteLength (Number_toString n))
      | Value (VBool b) => set_size (Buffer_byteLength (if b then "true" else "false"))
      | Value v => measure_serialized v
      end;
  _ ← pass_on (ViaSend data);
  call (originalSend x data).

(** The replacement of [res.json]. *)
Definition json (x : Express) (data : JsValue) : Eff Tele unit :=
  _ ← match data with
      | VUndefined => mret tt
      | _ => measure_serialized data
      end;
  _ ← pass_on (ViaJson data);
  call (originalJson x data).

Definition emit (x : Express) (e : Emission) : Eff Tele unit :=
  match e with
  | ViaSend data => send x data
  | ViaJson data => json x data
  end.

(** What is read when the response has finished. *)
Record Completion := mkCompletion {
  statusCode : nat;
  finished_at : Z;                   (* [Date.now()] in the listener *)
  timestamp : string                 (* [new Date().toISOString()] *)
}.

Definition of_option (x : option string) : JsValue :=
  match x with Some s => VString s | None => VUndefined end.

(** [a || b] on two optional strings. *)
Definition first_truthy (a b : option string) : option string :=
  match a with
  | Some (String c r) => a
  | _ => b
  end.

Definition request_entry (req : Req) (startTime : Z) (c : Completion) (size : nat)
  : LogEntry :=
  mkLog Info "HTTP Request"
    [("method", VString (method req));
     ("path", VString (path req));
     ("status", VNumber (Finite (Z.of_nat (statusCode c))));
     ("size", VNumber (Finite (Z.of_nat size)));
     ("duration", VString (Z_to_string (finished_at c - startTime) +:+ "ms"));
     ("ip", of_option (first_truthy (ip req) (remoteAddress req)));
     ("userAgent", of_option (userAgent req));
     ("timestamp", VString (timestamp c))].

(** The [finish] listener. *)
Definition on_finish (req : Req) (startTime : Z) (c : Completion) : Eff Tele unit :=
  if includes "/logs/" (path req) then mret tt
  else effect (fun t => mkTele (responseSize t) (emitted t)
                          (tlogs t ++ [request_entry req startTime c (responseSize t)])).

(** One request through the middleware: the emitter calls made downstream,
    whatever each returned to its caller, then the [finish] event. *)
Definition emissions (x : Express) (es : list Emission) (t : Tele) : Tele :=
  foldl (fun t e => (emit x e t).2) t es.

Definition serve (x : Express) (req : Req) (startTime : Z)
    (es : list Emission) (c : Completion) : Tele :=
  (on_finish req startTime c (emissions x es initial)).2.

(** The log-retrieval routes: [logsRouter] is mounted at [/logs] of the
    router mounted at [/api], so it serves [/api/logs] and what lies below. *)
Definition under_logs_route (path : string) : bool :=
  bool_decide (path = "/api/logs") || String.prefix "/api/logs/" path.

(** The fields of a log entry, in order. *)
Definition entry_fields : list string :=
  ["method"; "path"; "status"; "size"; "duration"; "ip"; "userAgent"; "timestamp"].

End Telemetry.

(* ===================================================================== *)
(** ** Startup and shutdown: [initializeServer] and [cleanup] *)
(* ===================================================================== *)

Module Lifecycle.

(** The collaborator calls of the two sequences, in source order. *)
Inductive Call :=
| DatabaseInitialize | StorageInitialize | LogInitialize | InitSqlParser
| SeedBackend | Listen | SocketInitialize | RealtimeInitialize | SyncDeployment
| RealtimeClose | SocketClose | OAuthDestroy | DestroyEmailCooldownInterval.

#[global] Instance Call_eq_dec : EqDecision Call.
Proof. solve_decision. Defined.

(** A call begins; it ends by returning or fails by throwing (for an awaited
    call: its promise is fulfilled or rejected). *)
Inductive Event :=
| Begin (c : Call)
| End (c : Call)
| Failed (c : Call).

#[global] Instance Event_eq_dec : EqDecision Event.
Proof. solve_decision. Defined.

(** The process: what it has called, what it has logged, and its exit code
    once [process.exit] has run. *)
Record Proc := mkProc {
  events : list Event;
  plogs : list LogEntry;
  exited : option nat
}.

Definition booting : Proc := mkProc [] [] None.

Definition record (e : Event) : Eff Proc unit :=
  effect (fun p => mkProc (events p ++ [e]) (plogs p) (exited p)).

Definition log (l : Level) (msg : string) (m : list (string * JsValue)) : Eff Proc unit :=
  effect (fun p => mkProc (events p) (plogs p ++ [mkLog l msg m]) (exited p)).

(** [process.exit(code)] *)
Definition process_exit (code : nat) : Eff Proc unit :=
  effect (fun p => mkProc (events p) (plogs p) (Some code)).

(** A call that is run to completion before the next statement: a
    synchronous call, or an awaited one. *)
Definition complete (c : Call) (o : Outcome unit) : Eff Proc unit :=
  match o with
  | Return _ => record (End c)
  | Throw e => _ ← record (Failed c); call (Throw e)
  end.

Definition run (c : Call) (o : Outcome unit) : Eff Proc unit :=
  _ ← record (Begin c);
  complete c o.

(** [error instanceof Error ? error.message : String(error)] as log data
    (the stack trace that the boot logs next to it is not modelled). *)
Definition error_meta (e : Exn) : list (string * JsValue) :=
  [("error", VString (error_text e))].

(** *** Startup *)

(** A call that returns a promise nobody awaits: it throws before returning
    it, or the promise settles later. *)
Inductive Detached :=
| ThrowsAtCall (e : Exn)
| Settles (o : Outcome unit).

Record Boot := mkBoot {
  database_initialize : Outcome unit;
  storage_initialize : Outcome unit;
  log_initialize : Outcome unit;
  initSqlParser : Outcome unit;
  seedBackend : Outcome unit;
  listen : Outcome unit;
  socket_initialize : Outcome unit;
  realtime_initialize : Outcome unit;
  syncDeployment : Detached
}.

Definition createApp (b : Boot) : Eff Proc unit :=
  _ ← run DatabaseInitialize (database_initialize b);
  _ ← run StorageInitialize (storage_initialize b);
  _ ← run LogInitialize (log_initialize b);
  _ ← run InitSqlParser (initSqlParser b);
  (* the Express application is configured here: no collaborator is called *)
  run SeedBackend (seedBackend b).

(** [functionService.syncDeployment().catch((err) => logger.error(...))] *)
Definition fire_sync (d : Detached) : Eff Proc unit :=
  _ ← record (Begin SyncDeployment);
  match d with
  | ThrowsAtCall e => complete SyncDeployment (Throw e)
  | Settles (Return _) => record (End SyncDeployment)
  | Settles (Throw err) =>
      _ ← record (Failed SyncDeployment);
      log Error "Failed to sync functions to Deno Subhosting" (error_meta err)
  end.

(** The callback handed to [app.listen], which logs that the server is
    listening, runs from the event loop once the port is bound; it makes no
    collaborator call and is left out of the sequence. *)
Definition initializeServer (b : Boot) : Eff Proc unit :=
  try_catch
    (_ ← createApp b;
     _ ← run Listen (listen b);
     _ ← run SocketInitialize (socket_initialize b);
     _ ← run RealtimeInitialize (realtime_initialize b);
     fire_sync (syncDeployment b))
    (fun error =>
       _ ← log Error "Failed to initialize server" (error_meta error);
       process_exit 1).

(** The steps the specification names, in its order. *)
Definition boot_order : list Call :=
  [DatabaseInitialize; StorageInitialize; LogInitialize; InitSqlParser;
   Listen; SocketInitialize; RealtimeInitialize; SyncDeployment].

(** The completion of a step, whenever it comes. *)
Definition step_outcome (b : Boot) (c : Call) : Outcome unit :=
  match c with
  | DatabaseInitialize => database_initialize b
  | StorageInitialize => storage_initialize b
  | LogInitialize => log_initialize b
  | InitSqlParser => initSqlParser b
  | SeedBackend => seedBackend b
  | Listen => listen b
  | SocketInitialize => socket_initialize b
  | RealtimeInitialize => realtime_initialize b
  | SyncDeployment =>
      match syncDeployment b with ThrowsAtCall e => Throw e | Settles o => o end
  | _ => Return tt
  end.

Definition fails (o : Outcome unit) : Prop :=
  match o with Throw _ => True | Return _ => False end.

Definition began (p : Proc) : list Call :=
  omap (fun e => match e with Begin c => Some c | _ => None end) (events p).

(** *** Shutdown *)

(** The teardown collaborators.  Each may be called more than once in the
    life of a process; the argument is the number of earlier calls. *)
Record Teardown := mkTeardown {
  realtime_close : nat -> Detached;
  socket_close : nat -> Outcome unit;
  oauth_destroy : nat -> Outcome unit;
  destroyEmailCooldownInterval : nat -> Outcome unit
}.

Definition calls_in (c : Call) (es : list Event) : nat :=
  length (filter (fun e => e = Begin c) es).

Definition calls_of (c : Call) (p : Proc) : nat := calls_in c (events p).

(** A call whose completion depends on how often it was made before. *)
Definition run_nth (c : Call) (o : nat -> Outcome unit) : Eff Proc unit :=
  fun p => run c (o (calls_of c p)) p.

(** The three synchronous teardown steps and the exit: lines 294-320. *)
Definition cleanup_tail (t : Teardown) : Eff Proc unit :=
  _ ← try_catch (run_nth SocketClose (socket_close t))
        (fun error => log Error "Error closing SocketManager" (error_meta error));
  _ ← try_catch (run_nth OAuthDestroy (oauth_destroy t))
        (fun error => log Error "Error closing OAuthPKCEService" (error_meta error));
  _ ← try_catch (run_nth DestroyEmailCooldownInterval (destroyEmailCooldownInterval t))
        (fun error => log Error "Error clearing email cooldown interval" (error_meta error));
  process_exit 0.

(** The continuation of [await realtimeManager.close()] once the promise has
    settled with [o]. *)
Definition cleanup_resume (t : Teardown) (o : Outcome unit) : Eff Proc unit :=
  _ ← try_catch (complete RealtimeClose o)
        (fun error => log Error "Error closing RealtimeManager" (error_meta error));
  cleanup_tail t.

(** [cleanup] up to its only suspension point.  [Some o] is the promise
    being awaited; with [None] the first [try] threw before any promise
    existed and the function ran on to its end. *)
Definition cleanup_start (t : Teardown) : Eff Proc (option (Outcome unit)) :=
  fun p =>
    (_ ← log Info "Shutting down gracefully..." [];
     _ ← record (Begin RealtimeClose);
     match realtime_close t (calls_of RealtimeClose p) with
     | Settles o => mret (Some o)
     | ThrowsAtCall e =>
         _ ← try_catch (complete RealtimeClose (Throw e))
               (fun error => log Error "Error closing RealtimeManager" (error_meta error));
         _ ← cleanup_tail t;
         mret None
     end) p.

(** [cleanup] run without anything else in between. *)
Definition cleanup (t : Teardown) : Eff Proc unit :=
  awaited ← cleanup_start t;
  match awaited with
  | Some o => cleanup_resume t o
  | None => mret tt
  end.

Definition teardown_order : list Call :=
  [RealtimeClose; SocketClose; OAuthDestroy; DestroyEmailCooldownInterval].

(** *** The event loop during shutdown

    A termination signal starts a [cleanup]; a settled promise resumes the
    [cleanup] awaiting it.  Nothing runs once the process has exited. *)
Record Loop := mkLoop {
  proc : Proc;
  awaiting : list (Outcome unit)     (* [cleanup] calls suspended at the [await] *)
}.

Inductive Tick :=
| Signal                             (* SIGINT or SIGTERM *)
| Settled (i : nat).                 (* the promise of the i-th suspended call *)

(** One turn of the loop; [None] when the turn cannot happen.  The [Outcome]
    is how the [cleanup] code that ran in this turn completed. *)
Definition turn (t : Teardown) (k : Tick) (l : Loop) : option (Outcome unit * Loop) :=
  match exited (proc l) with
  | Some _ => None
  | None =>
      match k with
      | Signal =>
          match cleanup_start t (proc l) with
          | (Return (Some o), p) => Some (Return tt, mkLoop p (awaiting l ++ [o]))
          | (Return None, p) => Some (Return tt, mkLoop p (awaiting l))
          | (Throw e, p) => Some (Throw e, mkLoop p (awaiting l))
          end
      | Settled i =>
          match awaiting l !! i with
          | None => None
          | Some o =>
              let '(r, p) := cleanup_resume t o (proc l) in
              Some (r, mkLoop p (delete i (awaiting l)))
          end
      end
  end.

(** A schedule of turns, with the completion of each. *)
Fixpoint turns (t : Teardown) (ks : list Tick) (l : Loop)
  : option (list (Outcome unit) * Loop) :=
  match ks with
  | [] => Some ([], l)
  | k :: ks' =>
      match turn t k l with
      | None => None
      | Some (r, l') =>
          match turns t ks' l' with
          | None => None
          | Some (rs, l'') => Some (r :: rs, l'')
          end
      end
  end.

Definition serving : Loop := mkLoop booting [].

(** *** Vocabulary of the properties *)

(** How a call that completed with [o] shows in the events and, under the
    message of its [catch] block, in the log. *)
Definition outcome_event (c : Call) (o : Outcome unit) : Event :=
  match o with Return _ => End c | Throw _ => Failed c end.

Definition error_log (msg : string) (o : Outcome unit) : list LogEntry :=
  match o with
  | Return _ => []
  | Throw e => [mkLog Error msg (error_meta e)]
  end.

(** The first entry [cleanup] logs. *)
Definition shutting_down : LogEntry := mkLog Info "Shutting down gracefully..." [].

(** What the three synchronous teardown steps leave in the events and in
    the log of a process [p]. *)
Definition tail_events (t : Teardown) (p : Proc) : list Event :=
  [Begin SocketClose;
   outcome_event SocketClose (socket_close t (calls_of SocketClose p));
   Begin OAuthDestroy;
   outcome_event OAuthDestroy (oauth_destroy t (calls_of OAuthDestroy p));
   Begin DestroyEmailCooldownInterval;
   outcome_event DestroyEmailCooldownInterval
     (destroyEmailCooldownInterval t (calls_of DestroyEmailCooldownInterval p))].

Definition tail_logs (t : Teardown) (p : Proc) : list LogEntry :=
  error_log "Error closing SocketManager" (socket_close t (calls_of SocketClose p))
  ++ error_log "Error closing OAuthPKCEService" (oauth_destroy t (calls_of OAuthDestroy p))
  ++ error_log "Error clearing email cooldown interval"
       (destroyEmailCooldownInterval t (calls_of DestroyEmailCooldownInterval p)).

(** The completion of a detached call, whenever it comes. *)
Definition settled (d : Detached) : Outcome unit :=
  match d with ThrowsAtCall e => Throw e | Settles o => o end.

(** Every call of the boot sequence, in source order. *)
Definition full_order : list Call :=
  [DatabaseInitialize; StorageInitialize; LogInitialize; InitSqlParser; SeedBackend;
   Listen; SocketInitialize; RealtimeInitialize; SyncDeployment].

(** The outcome of a call as the [try] block of [initializeServer] meets
    it: awaited calls complete there, the deployment sync only starts. *)
Definition try_outcome (b : Boot) (c : Call) : Outcome unit :=
  match c with
  | SyncDeployment =>
      match syncDeployment b with ThrowsAtCall e => Throw e | Settles _ => Return tt end
  | _ => step_outcome b c
  end.

#[global] Instance fails_dec (o : Outcome unit) : Decision (fails o).
Proof. destruct o; [right; exact (fun H => H) | left; exact I]. Defined.

(** The process as [initializeServer] leaves it. *)
Definition booted (b : Boot) : Proc := (initializeServer b booting).2.

(** The named steps among the calls begun, in the order they began. *)
Definition steps_begun (p : Proc) : list Call :=
  filter (fun c => c ∈ boot_order) (began p).

(** The steps the specification names before [c], and after it. *)
Definition earlier_steps (c : Call) : list Call :=
  match list_find (fun c' => c' = c) boot_order with
  | Some (i, _) => take i boot_order
  | None => []
  end.

Definition later_steps (c : Call) : list Call :=
  match list_find (fun c' => c' = c) boot_order with
  | Some (i, _) => drop (S i) boot_order
  | None => []
  end.

(** The events up to the moment [c] begins. *)
Definition before_call (c : Call) (es : list Event) : list Event :=
  match list_find (fun e => e = Begin c) es with
  | Some (i, _) => take i es
  | None => es
  end.

(** The calls made when each one waits for the previous one to return and
    the first throw ends the sequence. *)
Fixpoint attempted (order : list Call) (outcome : Call -> Outcome unit) : list Call :=
  match order with
  | [] => []
  | c :: rest =>
      c :: match outcome c with
           | Return _ => attempted rest outcome
           | Throw _ => []
           end
  end.

Fixpoint first_failure (order : list Call) (outcome : Call -> Outcome unit)
  : option (Call * Exn) :=
  match order with
  | [] => None
  | c :: rest =>
      match outcome c with
      | Return _ => first_failure rest outcome
      | Throw e => Some (c, e)
      end
  end.

(** No call begins after a call of the same name has ended or failed;
    [finished] holds the names that have. *)
Fixpoint no_rerun (finished : list Call) (es : list Event) : bool :=
  match es with
  | [] => true
  | Begin c :: r => negb (bool_decide (c ∈ finished)) && no_rerun finished r
  | End c :: r | Failed c :: r => no_rerun (c :: finished) r
  end.

(** The events of a shutdown that started from [serving]: calls of
    [close] whose promises are pending and, once a [cleanup] has run to its
    end, the completion of one of them and the three remaining steps. *)
Definition pending_closes (n : nat) : list Event := replicate n (Begin RealtimeClose).

Definition final_steps (o1 o2 o3 o4 : Outcome unit) : list Event :=
  [outcome_event RealtimeClose o1;
   Begin SocketClose; outcome_event SocketClose o2;
   Begin OAuthDestroy; outcome_event OAuthDestroy o3;
   Begin DestroyEmailCooldownInterval; outcome_event DestroyEmailCooldownInterval o4].

Definition shutdown_shape (p : Proc) : Prop :=
  match exited p with
  | None => exists n, events p = pending_closes n
  | Some code =>
      code = 0%nat /\
      exists n o1 o2 o3 o4, events p = (pending_closes n ++ final_steps o1 o2 o3 o4)%list
  end.

End Lifecycle.

(* ===================================================================== *)
(** ** Running examples *)
(* ===================================================================== *)

Module Samples.
Import Gateway.

(** [GET /functions/hello?x=1] as the backend on port 7130 receives it. *)
Definition hello_request : Request :=
  mkRequest "GET" "/functions/hello?x=1" "hello"
    [("host", Single "localhost:7130");
     ("user-agent", Single "curl/8.5.0");
     ("x-trace", Multiple ["a"; "b"])]
    (VObject []).

(** No managed deployment, no runtime address configured. *)
Definition local_world (fetch : FetchRequest -> Outcome UpstreamResponse) : World :=
  mkWorld None (Return tt) (Return false) (Return None) fetch.

(** A managed deployment is configured and resolves. *)
Definition managed_world (fetch : FetchRequest -> Outcome UpstreamResponse) : World :=
  mkWorld (Some "http://localhost:7133") (Return tt) (Return true)
    (Return (Some "https://fn-prod.example.net")) fetch.


(** [POST /functions/greet] with the parsed body [{n: 3}]. *)
Definition greet_request : Request :=
  mkRequest "POST" "/functions/greet" "greet"
    [("host", Single "localhost:7130");
     ("content-type", Single "application/json")]
    (VObject [("n", VNumber (Finite 3))]).

Definition connection_refused : Exn :=
  ErrorInstance "FetchError"
    "request to http://localhost:7133/hello?x=1 failed, reason: connect ECONNREFUSED 127.0.0.1:7133".

Definition fetch_refused (request : FetchRequest) : Outcome UpstreamResponse :=
  Throw connection_refused.

Definition fresh_sink : Sink := mkSink [] (mkRes 200 ∅ None).

(** A boot in which everything works except the deployment sync, whose
    promise is rejected. *)
Definition boot_sync_rejected : Lifecycle.Boot :=
  Lifecycle.mkBoot (Return tt) (Return tt) (Return tt) (Return tt) (Return tt)
    (Return tt) (Return tt) (Return tt)
    (Lifecycle.Settles (Throw (ErrorInstance "Error" "Subhosting API returned 401"))).

(** Subsystems whose second [close] rejects because the first is under way. *)
Definition teardown_once : Lifecycle.Teardown :=
  Lifecycle.mkTeardown
    (fun n => Lifecycle.Settles
                (match n with
                 | O => Return tt
                 | S _ => Throw (ErrorInstance "Error" "Client was closed and is not queryable")
                 end))
    (fun _ => Return tt)
    (fun _ => Throw (NonError "store already destroyed"))
    (fun _ => Return tt).



(** An object that contains itself: [a = {}; a.self = a]. *)
Definition self_reference : JsValue := VObject [("self", VAncestor)].

(** Express's own emitters (Express 4, default settings) on a response
    that is open; the messages of the errors Node raises are abridged.
    [res.json] serializes the payload with [JSON.stringify] and hands the
    text, or [undefined], to [res.send].  [res.send] accepts a string, a
    buffer, [null] and [undefined]; it takes a number for the status code,
    which has to lie between 100 and 999; it hands a boolean and an object
    that is no buffer to [res.json]; what is left (a function, a BigInt) it
    tries to turn into a buffer, which throws. *)
Definition express_json (v : JsValue) : Outcome unit :=
  match JSON_stringify v with
  | Return _ => Return tt
  | Throw e => Throw e
  end.

Definition express_send (data : Telemetry.SendArg) : Outcome unit :=
  match data with
  | Telemetry.Buffer _ => Return tt
  | Telemetry.Value v =>
      match v with
      | VUndefined | VNull | VString _ => Return tt
      | VNumber n =>
          match n with
          | Finite z =>
              if bool_decide (100 <= z <= 999) then Return tt
              else Throw (ErrorInstance "RangeError" "Invalid status code")
          | _ => Throw (ErrorInstance "RangeError" "Invalid status code")
          end
      | VFunction | VBigInt _ =>
          Throw (TypeError "The first argument must be of type string or an instance of Buffer, ArrayBuffer, or Array or an Array-like Object.")
      | _ => express_json v
      end
  end.

Definition express_ok : Telemetry.Express :=
  Telemetry.mkExpress express_send express_json.

(** A download from a storage bucket that happens to be named [logs],
    answered by the storage router mounted at [/api/storage]. *)
Definition bucket_request : Telemetry.Req :=
  Telemetry.mkReq "GET" "/api/storage/buckets/logs/objects/report.txt"
    "/buckets/logs/objects/report.txt"
    (Some "203.0.113.7") None (Some "curl/8.5.0").

(** The health check, answered by the router mounted at [/api]. *)
Definition health_request : Telemetry.Req :=
  Telemetry.mkReq "GET" "/api/health" "/health" (Some "203.0.113.7") None None.

Definition finished_ok : Telemetry.Completion :=
  Telemetry.mkCompletion 200 1700000000250 "2023-11-14T22:13:20.250Z".

End Samples.

(* ===================================================================== *)
(** ** The migration bootstrap script: [bootstrapMigrations] *)
(* ===================================================================== *)

Module Bootstrap.

(** [try { body } finally { finalizer }]: the finalizer runs in both cases,
    and a throw of the finalizer replaces the completion of the body. *)
Definition try_finally {S A} (body : Eff S A) (finalizer : Eff S unit) : Eff S A :=
  fun s =>
    match body s with
    | (o, s1) =>
        match finalizer s1 with
        | (Return _, s2) => (o, s2)
        | (Throw e, s2) => (Throw e, s2)
        end
    end.

(** The SQL statements of the script, in source order. *)
Inductive Statement :=
| CheckOldTable      (* SELECT EXISTS ... 'public' / '_migrations' *)
| CheckNewTable      (* SELECT EXISTS ... 'system' / 'migrations' *)
| CreateSchema       (* CREATE SCHEMA IF NOT EXISTS system *)
| BeginTx            (* BEGIN *)
| MoveTable          (* ALTER TABLE public._migrations SET SCHEMA system *)
| RenameTable        (* ALTER TABLE system._migrations RENAME TO migrations *)
| Commit             (* COMMIT *)
| Rollback           (* ROLLBACK *)
| EnsureRoles.       (* DO $$ ... CREATE ROLE ... GRANT USAGE ... $$ *)

#[global] Instance Statement_eq_dec : EqDecision Statement.
Proof. solve_decision. Defined.

(** The calls into the [pg] driver. *)
Inductive Op :=
| NewPool            (* new Pool({ connectionString }) *)
| Connect            (* pool.connect() *)
| Query (q : Statement)   (* client.query(...) *)
| Release            (* client.release() *)
| PoolEnd.           (* pool.end() *)

#[global] Instance Op_eq_dec : EqDecision Op.
Proof. solve_decision. Defined.

(** The database as the script meets it.  The answer to a statement may
    depend on the statements sent before it; for the two checks the boolean
    is [rows[0].exists]. *)
Record Database := mkDatabase {
  new_Pool : Outcome unit;
  connect : Outcome unit;
  respond : list Statement -> Statement -> Outcome bool;
  release : Outcome unit;
  pool_end : Outcome unit
}.

(** The run of the script: the driver calls made so far, each with whether
    it returned, the log, [process.exitCode], and the status handed to
    [process.exit] if it was called. *)
Record Run := mkRun {
  ops : list (Op * bool);
  rlogs : list LogEntry;
  exitCode : option nat;
  terminated : option nat
}.

Definition fresh : Run := mkRun [] [] None None.

Definition returned {A} (o : Outcome A) : bool :=
  match o with Return _ => true | Throw _ => false end.

Definition perform {A} (op : Op) (o : Outcome A) : Eff Run A :=
  fun r => (o, mkRun (ops r ++ [(op, returned o)]) (rlogs r) (exitCode r) (terminated r)).

Definition statements (r : Run) : list Statement :=
  omap (fun x => match x.1 with Query q => Some q | _ => None end) (ops r).

(** [await client.query(statement)] *)
Definition query (db : Database) (q : Statement) : Eff Run bool :=
  fun r => perform (Query q) (respond db (statements r) q) r.

Definition log (l : Level) (msg : string) (m : list (string * JsValue)) : Eff Run unit :=
  effect (fun r => mkRun (ops r) (rlogs r ++ [mkLog l msg m]) (exitCode r) (terminated r)).

(** [process.exitCode = code] *)
Definition set_exitCode (code : nat) : Eff Run unit :=
  effect (fun r => mkRun (ops r) (rlogs r) (Some code) (terminated r)).

(** [process.exit(code)] *)
Definition process_exit (code : nat) : Eff Run unit :=
  effect (fun r => mkRun (ops r) (rlogs r) (exitCode r) (Some code)).

(** [{ error: error instanceof Error ? error.message : String(error), ... }]
    (the stack trace logged next to it is not modelled). *)
Definition failure_meta (e : Exn) : list (string * JsValue) :=
  [("error", VString (error_text e))].

(** Lines 126-142: the move of the tracking table, in a transaction. *)
Definition move_table (db : Database) : Eff Run unit :=
  _ ← log Info "Bootstrap: Moving _migrations table to system.migrations..." [];
  _ ← query db CreateSchema;
  _ ← query db BeginTx;
  _ ← try_catch
        (_ ← query db MoveTable;
         _ ← query db RenameTable;
         _ ← query db Commit;
         mret tt)
        (fun error =>
           _ ← query db Rollback;
           call (Throw error));
  log Info "Bootstrap: Successfully moved _migrations to system.migrations" [].

(** Lines 143-150: the branch taken when [system.migrations] exists. *)
Definition new_table_exists (db : Database) : Eff Run unit :=
  _ ← log Info "Bootstrap: system.migrations already exists, skipping" [];
  _ ← log Info "Bootstrap: No existing migrations table, fresh install" [];
  _ ← query db CreateSchema;
  log Info "Bootstrap: Created system schema for migrations" [].

(** Lines 109-172: the body of the inner [try], with the client at hand. *)
Definition with_client (db : Database) : Eff Run unit :=
  oldTableExists ← query db CheckOldTable;
  newTableExists ← query db CheckNewTable;
  _ ← (if (oldTableExists : bool) && negb newTableExists then move_table db
       else if (newTableExists : bool) then new_table_exists db
       else mret tt);
  _ ← log Info "Bootstrap: Ensuring essential database roles exist..." [];
  _ ← query db EnsureRoles;
  log Info "Bootstrap: Roles verified/created." [].

(** Lines 176-181: the outer [catch]. *)
Definition migration_failed (error : Exn) : Eff Run unit :=
  _ ← log Error "Bootstrap migration failed" (failure_meta error);
  set_exitCode 1.

(** [bootstrapMigrations], for the value of [process.env.DATABASE_URL]. *)
Definition bootstrapMigrations (DATABASE_URL : option string) (db : Database)
  : Eff Run unit :=
  match DATABASE_URL with
  | Some (String _ _) =>
      _ ← perform NewPool (new_Pool db);
      try_finally
        (try_catch
           (_ ← perform Connect (connect db);
            try_finally (with_client db) (perform Release (release db)))
           migration_failed)
        (perform PoolEnd (pool_end db))
  | _ =>
      _ ← log Error "DATABASE_URL environment variable is not set" [];
      process_exit 1
  end.

(** Lines 187-194: the call at the end of the module, with its [catch]. *)
Definition script (DATABASE_URL : option string) (db : Database) : Eff Run unit :=
  try_catch (bootstrapMigrations DATABASE_URL db) migration_failed.

(** The status the process ends with. *)
Definition exit_status (r : Run) : nat :=
  match terminated r with
  | Some code => code
  | None => default 0%nat (exitCode r)
  end.

(** *** Vocabulary of the properties *)

Definition url_missing (DATABASE_URL : option string) : bool :=
  match DATABASE_URL with Some (String _ _) => false | _ => true end.

(** The calls that close what was opened: [release] for a client that was
    acquired, [end] for a pool that was created. *)
Definition closing (connected created : bool) : list Op :=
  (if connected then [Release] else []) ++ (if created then [PoolEnd] else []).

Definition opens_or_queries (op : Op) : Prop := op <> Release /\ op <> PoolEnd.

#[global] Instance opens_or_queries_dec (op : Op) : Decision (opens_or_queries op).
Proof. unfold opens_or_queries. apply _. Defined.

(** The statement was sent, whether it succeeded or not. *)
Definition sent (q : Statement) (r : Run) : Prop :=
  (Query q, true) ∈ ops r \/ (Query q, false) ∈ ops r.

(** The statements of the transaction. *)
Definition transaction : list Statement :=
  [BeginTx; MoveTable; RenameTable; Commit; Rollback].

(** A database on which everything succeeds and which holds neither table. *)
Definition empty_database : Database :=
  mkDatabase (Return tt) (Return tt) (fun _ _ => Return false) (Return tt) (Return tt).

(** A database with the old table only, on which everything succeeds. *)
Definition legacy_database : Database :=
  mkDatabase (Return tt) (Return tt)
    (fun _ q => match q with
                | CheckOldTable => Return true
                | _ => Return false
                end)
    (Return tt) (Return tt).

(** A database with the old table, on which the rename fails. *)
Definition rename_fails : Database :=
  mkDatabase (Return tt) (Return tt)
    (fun _ q => match q with
                | CheckOldTable => Return true
                | RenameTable => Throw (ErrorInstance "error" "relation already exists")
                | _ => Return false
                end)
    (Return tt) (Return tt).

End Bootstrap.

(* ===================================================================== *)
(** ** Further vocabulary *)
(* ===================================================================== *)

Module Vocabulary.
Import Lifecycle.

#[global] Instance Tick_eq_dec : EqDecision Tick.
Proof. solve_decision. Defined.

(** The number of termination signals in a schedule. *)
Definition signals (ks : list Tick) : nat := length (filter (fun k => k = Signal) ks).

(** The calls that stand before [c] in the boot sequence. *)
Definition before (c : Call) : list Call :=
  match list_find (fun c' => c' = c) full_order with
  | Some (i, _) => take i full_order
  | None => []
  end.

(** The initializations of the boot sequence: every call but the start of
    the deployment sync. *)
Definition initializations : list Call :=
  [DatabaseInitialize; StorageInitialize; LogInitialize; InitSqlParser; SeedBackend;
   Listen; SocketInitialize; RealtimeInitialize].

(** What input preparation leaves of a slug behind the leading slash of
    [`/${slug}`]: blanks at its end and every tab or newline are dropped. *)
Definition slug_as_parsed (slug : string) : string :=
  Url.remove_tab_newline (Url.strip_trailing slug).

(** A boot in which the object storage fails to initialize. *)
Definition boot_storage_fails : Boot :=
  mkBoot (Return tt) (Throw (ErrorInstance "Error" "EACCES: permission denied"))
    (Return tt) (Return tt) (Return tt) (Return tt) (Return tt) (Return tt)
    (Settles (Return tt)).

End Vocabulary.

(* ===================================================================== *)
(** * Properties *)
(* ===================================================================== *)

Import Gateway.

Ltac eff :=
  unfold mbind, Eff_bind, mret, Eff_ret, call, effect, try_catch in *.

(** ** Inversion of effectful code *)

Lemma bind_returns {S A B} (m : Eff S A) (f : A -> Eff S B) (s s2 : S) (b : B) :
  (m ≫= f) s = (Return b, s2) ->
  exists a s1, m s = (Return a, s1) /\ f a s1 = (Return b, s2).
Proof. eff. destruct (m s) as [[a|e] s1]; [eauto|done]. Qed.

Lemma call_returns {S A} (o : Outcome A) (s s1 : S) (a : A) :
  call o s = (Return a, s1) -> o = Return a /\ s1 = s.
Proof. unfold call. by intros [= -> ->]. Qed.

Lemma bind_run {S A B} (m : Eff S A) (f : A -> Eff S B) (s s1 : S) (a : A) :
  m s = (Return a, s1) -> (m ≫= f) s = f a s1.
Proof. eff. by intros ->. Qed.

Lemma bind_call {S A B} (o : Outcome A) (a : A) (f : A -> Eff S B) (s : S) :
  o = Return a -> (call o ≫= f) s = f a s.
Proof. by intros ->. Qed.

Lemma bind_effect {S B} (g : S -> S) (f : unit -> Eff S B) (s : S) :
  (effect g ≫= f) s = f tt (g s).
Proof. reflexivity. Qed.

(** ** Sanity checks of the platform model *)

Example stringify_array :
  JSON_stringify (VArray [VNumber (Finite 1); VUndefined; VBool true; VArray [VNull]])
  = Return (Some "[1,null,true,[null]]").
Proof. reflexivity. Qed.

Example stringify_object_skips_undefined :
  JSON_stringify (VObject [("a", VNumber (Finite (-7))); ("b", VUndefined)])
  = Return (Some ("{" +:+ QuoteJSONString "a" +:+ ":-7}")).
Proof. reflexivity. Qed.

Example url_dot_segments :
  Url.href <$> (match Url.URL_sample "/a/../b/./c d?x#y" "http://localhost:7133" with
                | Return u => Some u
                | Throw _ => None
                end)
  = Some "http://localhost:7133/b/c%20d?x#y".
Proof. vm_compute. reflexivity. Qed.

(** ** The URL parser on plain inputs *)

Import Url.

Lemma append_cons (c : ascii) (s t : string) : String c s +:+ t = String c (s +:+ t).
Proof. reflexivity. Qed.

Lemma append_nil_r (s : string) : s +:+ EmptyString = s.
Proof. induction s as [|c r IH]; [done|]. by rewrite append_cons, IH. Qed.

Lemma append_assoc (s t u : string) : (s +:+ t) +:+ u = s +:+ (t +:+ u).
Proof. induction s as [|c r IH]; [done|]. by rewrite !append_cons, IH. Qed.

Ltac by_char c := destruct c as [[] [] [] [] [] [] [] []]; vm_compute; intuition discriminate.

Lemma plain_slug_char_facts (c : ascii) :
  plain_slug_char c = true ->
  is_separator c = false /\ (code c =? 63)%nat = false /\ (code c =? 35)%nat = false /\
  in_path_set c = false /\ is_c0_or_space c = false /\ is_tab_or_newline c = false.
Proof. by_char c. Qed.

Lemma plain_query_char_facts (c : ascii) :
  plain_query_char c = true ->
  in_special_query_set c = false /\ (code c =? 35)%nat = false /\
  is_c0_or_space c = false /\ is_tab_or_newline c = false.
Proof. by_char c. Qed.

Lemma request_path_char_facts (c : ascii) :
  request_path_char c = true ->
  (code c =? 63)%nat = false /\ (code c =? 35)%nat = false /\
  is_c0_or_space c = false /\ is_tab_or_newline c = false.
Proof. by_char c. Qed.

Lemma all_chars_cons (P : ascii -> bool) (c : ascii) (r : string) :
  all_chars P (String c r) = true <-> P c = true /\ all_chars P r = true.
Proof. cbn [all_chars]. apply andb_true_iff. Qed.

Lemma all_chars_app (P : ascii -> bool) (s t : string) :
  all_chars P (s +:+ t) = true <-> all_chars P s = true /\ all_chars P t = true.
Proof.
  induction s as [|c r IH]; [cbn; tauto|].
  rewrite append_cons, !all_chars_cons, IH. tauto.
Qed.

Lemma all_chars_impl (P Q : ascii -> bool) (s : string) :
  (forall c, P c = true -> Q c = true) ->
  all_chars P s = true -> all_chars Q s = true.
Proof.
  intros HPQ. induction s as [|c r IH]; [done|].
  rewrite !all_chars_cons. intros [??]. auto.
Qed.

Lemma strip_trailing_no_blank (s : string) :
  all_chars no_blank s = true -> strip_trailing s = s.
Proof.
  induction s as [|c r IH]; [done|].
  rewrite all_chars_cons. intros [Hc Hr]. cbn [strip_trailing]. rewrite (IH Hr).
  apply andb_true_iff in Hc as [Hc _]. apply negb_true_iff in Hc.
  destruct r; [by rewrite Hc|done].
Qed.

Lemma remove_tab_newline_no_blank (s : string) :
  all_chars no_blank s = true -> remove_tab_newline s = s.
Proof.
  induction s as [|c r IH]; [done|].
  rewrite all_chars_cons. intros [Hc Hr]. cbn [remove_tab_newline]. rewrite (IH Hr).
  apply andb_true_iff in Hc as [_ Hc]. apply negb_true_iff in Hc. by rewrite Hc.
Qed.

Lemma prepare_no_blank (s : string) :
  all_chars no_blank s = true -> prepare s = s.
Proof.
  intros Hs. unfold prepare.
  assert (strip_leading s = s) as ->.
  { destruct s as [|c r]; [done|]. apply all_chars_cons in Hs as [Hc _].
    apply andb_true_iff in Hc as [Hc _]. apply negb_true_iff in Hc.
    cbn [strip_leading]. by rewrite Hc. }
  by rewrite strip_trailing_no_blank, remove_tab_newline_no_blank.
Qed.

Lemma percent_encode_plain (set : ascii -> bool) (s : string) :
  all_chars (fun c => negb (set c)) s = true -> percent_encode set s = s.
Proof.
  induction s as [|c r IH]; [done|].
  rewrite all_chars_cons. intros [Hc Hr]. cbn [percent_encode].
  apply negb_true_iff in Hc. by rewrite Hc, (IH Hr).
Qed.

Lemma split_fragment_plain (q : string) :
  all_chars plain_query_char q = true -> split_fragment q = (q, None).
Proof.
  induction q as [|c r IH]; [done|].
  rewrite all_chars_cons. intros [Hc Hr]. cbn [split_fragment].
  apply plain_query_char_facts in Hc as (_ & -> & _). by rewrite (IH Hr).
Qed.

(** A segment of plain characters is taken as it is. *)
Lemma path_state_plain (b : URL) (s : string) (p : list string) (buffer : string) :
  all_chars plain_slug_char s = true ->
  path_state b s p buffer
  = mkURL (scheme b) (userinfo b) (host b)
      (end_segment false p (buffer +:+ s)) None None.
Proof.
  revert buffer. induction s as [|c r IH]; intros buffer.
  - intros _. cbn [path_state]. by rewrite append_nil_r.
  - rewrite all_chars_cons. intros [Hc Hr]. cbn [path_state].
    apply plain_slug_char_facts in Hc as (-> & -> & -> & -> & _).
    rewrite (IH _ Hr), append_assoc. reflexivity.
Qed.

(** The path of a request line is skipped up to its query. *)
Lemma path_state_query (b : URL) (path q : string) (p : list string) (buffer : string) :
  all_chars request_path_char path = true ->
  all_chars plain_query_char q = true ->
  query (path_state b (path +:+ String "?" q) p buffer) = Some q.
Proof.
  intros Hpath Hq. revert p buffer.
  induction path as [|c r IH]; intros p buffer.
  - change (EmptyString +:+ String "?" q) with (String "?" q). cbn [path_state].
    change (is_separator "?"%char) with false.
    change (code "?"%char =? 63)%nat with true.
    cbn match. unfold query_state. rewrite (split_fragment_plain _ Hq).
    cbn [fmap option_fmap option_map query]. by rewrite percent_encode_plain.
  - apply all_chars_cons in Hpath as [Hc Hr]. rewrite append_cons. cbn [path_state].
    apply request_path_char_facts in Hc as (-> & -> & _).
    destruct (is_separator c); by rewrite (IH Hr).
Qed.

Lemma path_state_no_query (b : URL) (path : string) (p : list string) (buffer : string) :
  all_chars request_path_char path = true ->
  query (path_state b path p buffer) = None.
Proof.
  intros Hpath. revert p buffer.
  induction path as [|c r IH]; intros p buffer; [done|].
  apply all_chars_cons in Hpath as [Hc Hr]. cbn [path_state].
  apply request_path_char_facts in Hc as (-> & -> & _).
  destruct (is_separator c); by rewrite (IH Hr).
Qed.

Lemma search_of_query (u : URL) (q : option string) :
  query u = q -> search u = search_text q.
Proof. intros <-. reflexivity. Qed.

(** Setting [search] to what [search] of a plain query shows restores it. *)
Lemma set_search_plain (u : URL) (q : option string) :
  (forall t, q = Some t -> all_chars plain_query_char t = true) ->
  query (set_search u (search_text q))
  = match q with Some EmptyString => None | _ => q end.
Proof.
  intros Hq. destruct q as [[|c r]|]; [done| |done].
  specialize (Hq _ eq_refl). cbn [search_text].
  unfold set_search.
  change ("?" +:+ String c r) with (String "?" (String c r)).
  cbn [query without_question_mark].
  change (code "?"%char =? 63)%nat with true. cbn match.
  rewrite remove_tab_newline_no_blank, percent_encode_plain; [done|done|].
  eapply all_chars_impl; [|exact Hq].
  intros c0 Hc0. apply plain_query_char_facts in Hc0 as (_ & _ & H1 & H2).
  unfold no_blank. by rewrite H1, H2.
Qed.

Lemma percent_encode_byte_plain (c : ascii) :
  all_chars plain_query_char (percent_encode_byte c) = true.
Proof. destruct c as [[] [] [] [] [] [] [] []]; vm_compute; reflexivity. Qed.

(** What the query state has encoded holds no character it would encode. *)
Lemma percent_encode_query_plain (s : string) :
  all_chars plain_query_char (percent_encode in_special_query_set s)
  = true.
Proof.
  induction s as [|c r IH]; [done|]. cbn [percent_encode].
  rewrite all_chars_app. split; [|exact IH].
  destruct (in_special_query_set c) eqn:Hc; [apply percent_encode_byte_plain|].
  cbn. unfold plain_query_char. by rewrite Hc.
Qed.

Lemma path_state_query_plain (b : URL) (input : string) (p : list string)
    (buffer q : string) :
  query (path_state b input p buffer) = Some q ->
  all_chars plain_query_char q = true.
Proof.
  revert p buffer.
  induction input as [|c rest IH]; intros p buffer; cbn [path_state].
  - done.
  - destruct (is_separator c); [apply IH|].
    destruct (code c =? 63)%nat.
    { unfold query_state. destruct (split_fragment rest) as [q0 f].
      cbn [query]. intros [= <-]. apply percent_encode_query_plain. }
    destruct (code c =? 35)%nat; [done|apply IH].
Qed.








Lemma href_one_segment (b : URL) (seg : string) (q : option string) :
  href (mkURL (scheme b) (userinfo b) (host b) [seg] q None)
  = origin_text b +:+ "/" +:+ seg +:+ query_suffix q.
Proof.
  unfold href, origin_text. cbn [scheme userinfo host path query fragment serialize_path].
  rewrite !append_assoc, !append_nil_r. reflexivity.
Qed.

(** ** The gateway *)

(** *** Header stores *)



Section HeaderStore.
Variable stored_content_type : string -> string.




End HeaderStore.








Section GatewayFacts.
Variable parse_special : string -> option Url.URL.
Variable URL_other : string -> string -> Outcome Url.URL.
Abbreviation request_for := (upstream_request parse_special URL_other).

(** The [catch] block only logs and fills the response. *)
Lemma gateway_error_runs (req : Request) (e : Exn) (s : Sink) :
  gateway_error req e s =
  (Return tt,
   mkSink (logs s ++ [mkLog Error "Failed to proxy function"
                        [("slug", VString (slug req));
                         ("error", VString (String_of_exn e))]])
          (mkRes 502 (res_headers (res s)) (Some (BodyJson (gateway_error_body e))))).
Proof. reflexivity. Qed.

(** Before [fetch] is called the response is not touched. *)
Lemma upstream_request_keeps_res (w : World) (req : Request) (s s' : Sink) o :
  request_for w req s = (o, s') -> res s' = res s.
Proof.
  unfold upstream_request, resolveBaseUrl, log. eff. intros H.
  repeat case_match; simplify_eq; reflexivity.
Qed.

(** [new URL("/" + slug, base)] for a slug of plain characters. *)
Lemma URL_new_slug (base slug : string) (b : URL) :
  parse_special base = Some b ->
  all_chars plain_slug_char slug = true ->
  is_single_dot slug = false ->
  is_double_dot slug = false ->
  Url.URL_new parse_special URL_other ("/" +:+ slug) base
  = Return (mkURL (scheme b) (userinfo b) (host b) [slug] None None).
Proof.
  intros Hbase Hslug Hsd Hdd. unfold Url.URL_new.
  change ("/" +:+ slug) with (String "/" slug).
  rewrite prepare_no_blank, Hbase.
  - change (code "/"%char =? 47)%nat with true.
    assert (starts_with_separator slug = false) as ->.
    { destruct slug as [|c r]; [done|]. apply all_chars_cons in Hslug as [Hc _].
      apply plain_slug_char_facts in Hc as (Hc & _). exact Hc. }
    cbn [andb negb]. rewrite path_state_plain by done.
    unfold end_segment. change (EmptyString +:+ slug) with slug.
    by rewrite Hsd, Hdd.
  - apply all_chars_cons. split; [done|].
    eapply all_chars_impl; [|exact Hslug].
    intros c Hc. apply plain_slug_char_facts in Hc as (_ & _ & _ & _ & H1 & H2).
    unfold no_blank. by rewrite H1, H2.
Qed.

(** [new URL(req.url, base)] for a request line [/path] or [/path?query]
    of plain characters: its query is the one written. *)
Lemma URL_new_request_line (base path : string) (q : option string) (b : URL) :
  parse_special base = Some b ->
  starts_with_separator path = false ->
  all_chars request_path_char path = true ->
  (forall t, q = Some t -> all_chars plain_query_char t = true) ->
  exists u,
    Url.URL_new parse_special URL_other ("/" +:+ path +:+ query_suffix q) base = Return u /\
    query u = q.
Proof.
  intros Hbase Hsep Hpath Hq. unfold Url.URL_new.
  change ("/" +:+ path +:+ query_suffix q) with (String "/" (path +:+ query_suffix q)).
  rewrite prepare_no_blank, Hbase.
  - change (code "/"%char =? 47)%nat with true.
    assert (starts_with_separator (path +:+ query_suffix q) = false) as ->.
    { destruct path as [|c r]; [|done]. by destruct q. }
    cbn [andb negb]. eexists. split; [done|].
    destruct q as [t|].
    + apply path_state_query; auto.
    + cbn [query_suffix]. rewrite append_nil_r. by apply path_state_no_query.
  - apply all_chars_cons. split; [done|]. apply all_chars_app. split.
    + eapply all_chars_impl; [|exact Hpath].
      intros c Hc. apply request_path_char_facts in Hc as (_ & _ & H1 & H2).
      unfold no_blank. by rewrite H1, H2.
    + destruct q as [t|]; [|done]. cbn [query_suffix].
      change ("?" +:+ t) with (String "?" t). apply all_chars_cons. split; [done|].
      eapply all_chars_impl; [|exact (Hq _ eq_refl)].
      intros c Hc. apply plain_query_char_facts in Hc as (_ & _ & H1 & H2).
      unfold no_blank. by rewrite H1, H2.
Qed.

(** C2.  The base URL is computed from the collaborators' answers of this
    very call and from nothing else (the store of effects is neither read nor
    changed): a configured deployment service that yields a non-empty URL
    wins; otherwise the local runtime address is taken from the environment,
    and is [http://localhost:7133] when the variable is unset (or empty). *)
Theorem base_url_is_resolved_per_call (w : World) (s : Sink) :
  (forall u, isSubhostingConfigured w = Return true ->
             getDeploymentUrl w = Return (Some u) -> u <> EmptyString ->
             resolveBaseUrl w s = (Return u, s)) /\
  (isSubhostingConfigured w = Return false ->
   resolveBaseUrl w s = (Return (localRuntime w), s)) /\
  (isSubhostingConfigured w = Return true ->
   getDeploymentUrl w = Return None \/ getDeploymentUrl w = Return (Some EmptyString) ->
   resolveBaseUrl w s = (Return (localRuntime w), s)) /\
  (forall u, DENO_RUNTIME_URL w = Some u -> u <> EmptyString -> localRuntime w = u) /\
  (DENO_RUNTIME_URL w = None \/ DENO_RUNTIME_URL w = Some EmptyString ->
   localRuntime w = "http://localhost:7133").
Proof.
  unfold resolveBaseUrl, localRuntime. eff. split_and!.
  - intros u -> -> Hu. by destruct u.
  - by intros ->.
  - by intros -> [-> | ->].
  - intros u -> Hu. by destruct u.
  - by intros [-> | ->].
Qed.

Lemma resolveBaseUrl_keeps_sink (w : World) (s s1 : Sink) o :
  resolveBaseUrl w s = (o, s1) -> s1 = s.
Proof.
  unfold resolveBaseUrl. eff.
  destruct (isSubhostingConfigured w) as [[]|]; [|by intros [= _ <-]..].
  destruct (getDeploymentUrl w); by intros [= _ <-].
Qed.

(** What a returned [upstream_request] went through. *)
Lemma upstream_request_returns (w : World) (req : Request) (s0 s1 : Sink)
    (request : FetchRequest) :
  request_for w req s0 = (Return request, s1) ->
  exists base target incoming body,
    getInstance w = Return tt /\
    resolveBaseUrl w s0 = (Return base, s0) /\
    Url.URL_new parse_special URL_other ("/" +:+ slug req) base = Return target /\
    Url.URL_new parse_special URL_other (url req) (incoming_base req) = Return incoming /\
    request_body req = Return body /\
    request = mkFetch (Url.href (Url.set_search target (Url.search incoming)))
                (method req)
                (<["host" := Url.host target]> (string_headers (headers req)))
                body.
Proof.
  unfold upstream_request. intros H.
  apply bind_returns in H as ([] & s & Hinst & H).
  apply call_returns in Hinst as [Hinst ->].
  apply bind_returns in H as (base & s & Hbase & H).
  pose proof (resolveBaseUrl_keeps_sink _ _ _ _ Hbase) as ->.
  apply bind_returns in H as (target & s & Htarget & H).
  apply call_returns in Htarget as [Htarget ->].
  apply bind_returns in H as (incoming & s & Hincoming & H).
  apply call_returns in Hincoming as [Hincoming ->].
  cbv zeta in H.
  apply bind_returns in H as ([] & s & _ & H).
  apply bind_returns in H as (body & s' & Hbody & H).
  apply call_returns in Hbody as [Hbody ->].
  injection H as <- _.
  by exists base, target, incoming, body.
Qed.

(** C3.  In the arguments of [fetch], a GET or HEAD call has no body, and
    any other call has the JSON text of the parsed request body. *)
Theorem upstream_body_follows_method (w : World) (req : Request) (s0 s1 : Sink)
    (request : FetchRequest) :
  request_for w req s0 = (Return request, s1) ->
  f_method request = method req /\
  (method req = "GET" \/ method req = "HEAD" -> f_body request = None) /\
  (method req <> "GET" -> method req <> "HEAD" ->
   JSON_stringify (body req) = Return (f_body request)).
Proof.
  intros H.
  apply upstream_request_returns in H
    as (base & target & incoming & b & _ & _ & _ & _ & Hbody & ->).
  cbn. unfold request_body, bodyless in Hbody. split; [done|]. split.
  - intros Hm. rewrite bool_decide_eq_true_2 in Hbody; [congruence|].
    rewrite !elem_of_cons. tauto.
  - intros Hget Hhead. rewrite bool_decide_eq_false_2 in Hbody; [done|].
    rewrite !elem_of_cons, elem_of_nil. tauto.
Qed.


(** *** The [try] block and its [catch] *)

Variable stored_content_type : string -> string.

Abbreviation handler := (functionProxyHandler parse_special URL_other stored_content_type).
Abbreviation try_block := (proxy parse_special URL_other stored_content_type).

(** A throw of the [try] block leaves the response as it was. *)
Lemma try_block_throw_keeps_res (w : World) (req : Request) (s s' : Sink) e :
  try_block w req s = (Throw e, s') -> res s' = res s.
Proof.
  unfold proxy. eff. intros H.
  destruct (request_for w req s) as [[request|e1] s1] eqn:Hreq.
  - apply upstream_request_keeps_res in Hreq.
    destruct (fetch w request) as [response|e2]; [|by simplify_eq].
    unfold relay, res_status, res_set_object, res_set, res_send, on_res in H. eff.
    destruct (arrayBuffer response); by simplify_eq.
  - apply upstream_request_keeps_res in Hreq. by simplify_eq.
Qed.

(** Each of the three failures is a throw of the [try] block. *)
Lemma proxy_failure_throws (w : World) (req : Request) (s0 : Sink) e :
  proxy_failure parse_special URL_other w req s0 e ->
  exists s, try_block w req s0 = (Throw e, s).
Proof.
  unfold proxy. eff.
  intros [e' s H | request s e' H Hf | request s response e' H Hf Hr]; rewrite H.
  - by eexists.
  - rewrite Hf. by eexists.
  - rewrite Hf. unfold relay. eff. rewrite Hr. by eexists.
Qed.

(** and the [try] block throws in no other way. *)
Lemma try_block_throws_by_failure (w : World) (req : Request) (s0 s : Sink) e :
  try_block w req s0 = (Throw e, s) ->
  proxy_failure parse_special URL_other w req s0 e.
Proof.
  unfold proxy. eff. intros H.
  destruct (request_for w req s0) as [[request|e1] s1] eqn:Hreq.
  - destruct (fetch w request) as [response|e2] eqn:Hf.
    + unfold relay, res_status, res_set_object, res_set, res_send, on_res in H. eff.
      destruct (arrayBuffer response) eqn:Hr; simplify_eq.
      eapply fails_reading; eauto.
    + simplify_eq. eapply fails_connecting; eauto.
  - simplify_eq. eapply fails_resolving; eauto.
Qed.

(** C1.  Whatever the collaborators do, the handler returns normally: no
    exception escapes it.  And when resolving the target, connecting to the
    upstream or reading its response throws [e], the response it leaves has
    status 502, the headers it had before, and the body
    [{error: "GATEWAY_ERROR", message: "Failed to reach edge function
    runtime", details}], where [details] is the message of [e] when [e] is
    an [Error] and the string [e] converts to otherwise. *)
Theorem gateway_failure_becomes_502 (w : World) (req : Request) (s0 : Sink) :
  exists s1,
    handler w req s0 = (Return tt, s1) /\
    forall e, proxy_failure parse_special URL_other w req s0 e ->
      res s1
      = mkRes 502 (res_headers (res s0))
          (Some (BodyJson
                   (VObject
                      [("error", VString "GATEWAY_ERROR");
                       ("message", VString "Failed to reach edge function runtime");
                       ("details", VString (match e with
                                            | ErrorInstance _ message => message
                                            | NonError text => text
                                            end))]))).
Proof.
  unfold functionProxyHandler, try_catch.
  destruct (try_block w req s0) as [[[]|e0] s'] eqn:Htry.
  - exists s'. split; [done|]. intros e Hfail.
    apply proxy_failure_throws in Hfail as [s Hthrow]. congruence.
  - rewrite gateway_error_runs. eexists. split; [done|]. intros e Hfail.
    apply proxy_failure_throws in Hfail as [s Hthrow].
    assert (e = e0) as -> by congruence.
    apply try_block_throw_keeps_res in Htry. cbn. rewrite Htry. by destruct e0.
Qed.



End GatewayFacts.

Import Samples.

Lemma gateway_failure_becomes_502_witness :
  proxy_failure Url.parse_special_sample Url.URL_other_sample
    (local_world fetch_refused) hello_request fresh_sink connection_refused /\
  exists s1,
    functionProxyHandler Url.parse_special_sample Url.URL_other_sample
      content_type_express4 (local_world fetch_refused) hello_request fresh_sink
    = (Return tt, s1) /\
    res s1
    = mkRes 502 ∅
        (Some (BodyJson
                 (VObject
                    [("error", VString "GATEWAY_ERROR");
                     ("message", VString "Failed to reach edge function runtime");
                     ("details",
                      VString "request to http://localhost:7133/hello?x=1 failed, reason: connect ECONNREFUSED 127.0.0.1:7133")]))).
Proof.
  assert (proxy_failure Url.parse_special_sample Url.URL_other_sample
            (local_world fetch_refused) hello_request fresh_sink connection_refused) as Hfail.
  { destruct (upstream_request Url.parse_special_sample Url.URL_other_sample
                (local_world fetch_refused) hello_request fresh_sink)
      as [[request|e] s] eqn:Hreq.
    - eapply fails_connecting; [exact Hreq | reflexivity].
    - vm_compute in Hreq. discriminate Hreq. }
  split; [exact Hfail|].
  destruct (gateway_failure_becomes_502 Url.parse_special_sample Url.URL_other_sample
              content_type_express4
              (local_world fetch_refused) hello_request fresh_sink) as (s1 & Hrun & Hres).
  exists s1. split; [exact Hrun|]. exact (Hres _ Hfail).
Defined.

Lemma base_url_is_resolved_per_call_witness :
  resolveBaseUrl (managed_world fetch_refused) fresh_sink
  = (Return "https://fn-prod.example.net", fresh_sink) /\
  resolveBaseUrl (local_world fetch_refused) fresh_sink
  = (Return "http://localhost:7133", fresh_sink).
Proof.
  split.
  - apply (base_url_is_resolved_per_call (managed_world fetch_refused) fresh_sink);
      [reflexivity | reflexivity | discriminate].
  - destruct (base_url_is_resolved_per_call (local_world fetch_refused) fresh_sink)
      as (_ & Hlocal & _ & _ & Hdefault).
    rewrite (Hlocal eq_refl), (Hdefault (or_introl eq_refl)). reflexivity.
Defined.

Lemma upstream_body_follows_method_witness :
  exists request s1,
    upstream_request Url.parse_special_sample Url.URL_other_sample
      (local_world fetch_refused) greet_request fresh_sink = (Return request, s1) /\
    f_method request = "POST" /\
    JSON_stringify (body greet_request) = Return (f_body request) /\
    f_body request = Some ("{" +:+ QuoteJSONString "n" +:+ ":3}").
Proof.
  destruct (upstream_request Url.parse_special_sample Url.URL_other_sample
              (local_world fetch_refused) greet_request fresh_sink)
    as [[request|e] s1] eqn:Hreq.
  - destruct (upstream_body_follows_method _ _ _ _ _ _ _ Hreq) as (Hm & _ & Hbody).
    exists request, s1. split; [done|]. split; [exact Hm|].
    assert (JSON_stringify (body greet_request) = Return (f_body request)) as Hjson
      by (apply Hbody; discriminate).
    split; [exact Hjson|].
    assert (JSON_stringify (body greet_request)
            = Return (Some ("{" +:+ QuoteJSONString "n" +:+ ":3}"))) as Htext
      by reflexivity.
    congruence.
  - vm_compute in Hreq. discriminate Hreq.
Defined.





(** ** The telemetry middleware *)

Section JsonFacts.

(** Induction over values, through arrays and objects. *)
Lemma JsValue_induction (P : JsValue -> Prop) :
  P VUndefined -> P VNull -> (forall b, P (VBool b)) -> (forall n, P (VNumber n)) ->
  (forall s, P (VString s)) -> (forall z, P (VBigInt z)) -> P VFunction ->
  (forall items, Forall P items -> P (VArray items)) ->
  (forall props, Forall (fun kv => P kv.2) props -> P (VObject props)) ->
  P VAncestor ->
  forall v, P v.
Proof.
  intros Hu Hn Hb Hnum Hs Hbig Hf Harr Hobj Hanc.
  fix IH 1. intros [| |b|n|s|z| |items|props|].
  - exact Hu.
  - exact Hn.
  - apply Hb.
  - apply Hnum.
  - apply Hs.
  - apply Hbig.
  - exact Hf.
  - apply Harr. induction items as [|x r IHr]; constructor; [apply IH|exact IHr].
  - apply Hobj. induction props as [|[k x] r IHr]; constructor; [apply IH|exact IHr].
  - exact Hanc.
Qed.

(** An array or object fails to serialize when one of its values does. *)
Lemma serialize_elements_throws (ser : JsValue -> Outcome (option string))
    (l : list JsValue) :
  (exists e, serialize_elements ser l = Throw e) <->
  Exists (fun x => exists e, ser x = Throw e) l.
Proof.
  induction l as [|x r IH]; cbn [serialize_elements].
  - rewrite Exists_nil. split; [intros [e He]; discriminate He | done].
  - rewrite Exists_cons, <- IH.
    destruct (ser x) as [o|e]; [|split; eauto].
    destruct (serialize_elements ser r) as [rs|e]; [|split; eauto].
    split; [intros [e He]; discriminate He|].
    intros [[e He]|[e He]]; discriminate He.
Qed.

Lemma serialize_members_throws (ser : JsValue -> Outcome (option string))
    (l : list (string * JsValue)) :
  (exists e, serialize_members ser l = Throw e) <->
  Exists (fun kv => exists e, ser kv.2 = Throw e) l.
Proof.
  induction l as [|[k x] r IH]; cbn [serialize_members].
  - rewrite Exists_nil. split; [intros [e He]; discriminate He | done].
  - rewrite Exists_cons, <- IH. cbn [snd].
    destruct (ser x) as [o|e]; [|split; eauto].
    destruct (serialize_members ser r) as [rs|e]; [|split; eauto].
    split; [intros [e He]; discriminate He|].
    intros [[e He]|[e He]]; discriminate He.
Qed.

Lemma Exists_either {A} (P : A -> Prop) (f g : A -> bool) (l : list A) :
  Forall (fun x => P x <-> f x = true \/ g x = true) l ->
  Exists P l <-> existsb f l = true \/ existsb g l = true.
Proof.
  induction 1 as [|x r Hx _ IH]; cbn [existsb].
  - rewrite Exists_nil. split; [done | intros [?|?]; discriminate].
  - rewrite Exists_cons, !orb_true_iff, Hx, IH. tauto.
Qed.

(** [JSON.stringify] throws exactly on circular values and on values that
    hold a BigInt. *)
Lemma JSON_stringify_throws_iff (v : JsValue) :
  (exists e, JSON_stringify v = Throw e) <->
  circular v = true \/ holds_bigint v = true.
Proof.
  unfold JSON_stringify.
  induction v as [| |b|n|s|z| |items IH|props IH|] using JsValue_induction;
    cbn [SerializeJSONProperty circular holds_bigint].
  - split; [intros [e He]; discriminate He | intros [?|?]; discriminate].
  - split; [intros [e He]; discriminate He | intros [?|?]; discriminate].
  - split; [intros [e He]; discriminate He | intros [?|?]; discriminate].
  - destruct n; (split; [intros [e He]; discriminate He | intros [?|?]; discriminate]).
  - split; [intros [e He]; discriminate He | intros [?|?]; discriminate].
  - split; [auto | eauto].
  - split; [intros [e He]; discriminate He | intros [?|?]; discriminate].
  - rewrite <- (Exists_either _ _ _ _ IH), <- serialize_elements_throws.
    destruct (serialize_elements SerializeJSONProperty items) as [parts|e].
    + split; intros [e He]; discriminate He.
    + split; eauto.
  - rewrite <- (Exists_either (fun kv => exists e, SerializeJSONProperty kv.2 = Throw e)
                  (fun kv => circular kv.2) (fun kv => holds_bigint kv.2) _ IH),
      <- serialize_members_throws.
    destruct (serialize_members SerializeJSONProperty props) as [parts|e].
    + split; intros [e He]; discriminate He.
    + split; eauto.
  - split; [auto | eauto].
Qed.

End JsonFacts.

Import Telemetry.

(** The size measurement of an object never throws. *)
Lemma measure_serialized_returns (data : JsValue) (t : Tele) :
  exists n, measure_serialized data t = (Return tt, mkTele n (emitted t) (tlogs t)).
Proof.
  unfold measure_serialized, set_size. eff.
  destruct (JSON_stringify data) as [[text|]|e]; cbn; eauto.
Qed.

Lemma measure_unserializable (data : JsValue) (t : Tele) :
  ~ serializable data ->
  measure_serialized data t = (Return tt, mkTele 0 (emitted t) (tlogs t)).
Proof.
  intros Hno. unfold measure_serialized, set_size. eff.
  destruct (JSON_stringify data) as [[text|]|e] eqn:Hjson; cbn; [|done..].
  destruct Hno. by exists text.
Qed.

Lemma circular_not_serializable (data : JsValue) :
  circular data = true -> ~ serializable data /\ data <> VUndefined.
Proof.
  intros Hc. split; [|by intros ->].
  destruct (proj2 (JSON_stringify_throws_iff data) (or_introl Hc)) as [e He].
  intros [text Htext]. congruence.
Qed.

(** C8, as the code has it.  For a payload that is circular, or that
    [JSON.stringify] turns into no text for another reason, the size
    computation of the wrapped [json] and [send] does not throw and measures
    0; the wrapped call then completes exactly as Express's own emitter does
    on the unchanged payload; and the entry written when the response
    finishes on that emission has [size: 0]. *)
Theorem unserializable_payload_measures_zero (x : Express) (data : JsValue) (t : Tele) :
  circular data = true \/ (~ serializable data /\ data <> VUndefined) ->
  measure_serialized data t = (Return tt, mkTele 0 (emitted t) (tlogs t)) /\
  json x data t
  = (originalJson x data, mkTele 0 (emitted t ++ [ViaJson data]) (tlogs t)) /\
  send x (Value data) t
  = (originalSend x (Value data), mkTele 0 (emitted t ++ [ViaSend (Value data)]) (tlogs t)) /\
  forall req startTime c,
    includes "/logs/" (path req) = false ->
    exists entry,
      tlogs (on_finish req startTime c (json x data t).2).2 = (tlogs t ++ [entry])%list /\
      tlogs (on_finish req startTime c (send x (Value data) t).2).2
      = (tlogs t ++ [entry])%list /\
      level entry = Info /\
      message entry = "HTTP Request" /\
      (meta entry).*1
      = ["method"; "path"; "status"; "size"; "duration"; "ip"; "userAgent"; "timestamp"] /\
      meta entry !! 3%nat = Some ("size", VNumber (Finite 0)).
Proof.
  intros H.
  assert (~ serializable data /\ data <> VUndefined) as [Hno Hdef].
  { destruct H as [Hc|H]; [by apply circular_not_serializable|done]. }
  pose proof (measure_unserializable data t Hno) as Hm.
  assert (json x data t
          = (originalJson x data, mkTele 0 (emitted t ++ [ViaJson data]) (tlogs t))) as Hjson.
  { unfold json, pass_on. eff.
    destruct data; try done; by rewrite Hm. }
  assert (send x (Value data) t
          = (originalSend x (Value data),
             mkTele 0 (emitted t ++ [ViaSend (Value data)]) (tlogs t))) as Hsend.
  { unfold send, pass_on. eff.
    destruct data; try done; try (by rewrite Hm);
      destruct Hno; unfold serializable, JSON_stringify; cbn; eauto.
    destruct n; eauto. }
  split_and!; [done..|].
  intros req startTime c Hpath. rewrite Hjson, Hsend.
  unfold on_finish. rewrite Hpath. eexists. split_and!; reflexivity.
Qed.

Lemma emit_passes_on (x : Express) (e : Emission) (t : Tele) :
  emitted (emit x e t).2 = (emitted t ++ [e])%list /\ tlogs (emit x e t).2 = tlogs t.
Proof.
  destruct e as [data|data]; cbn [emit].
  - unfold send, pass_on, set_size. eff.
    destruct data as [bytes|v]; [done|].
    destruct v; try done;
      match goal with |- context [measure_serialized ?v t] =>
        destruct (measure_serialized_returns v t) as [size ->] end; done.
  - unfold json, pass_on. eff.
    destruct data; try done;
      match goal with |- context [measure_serialized ?v t] =>
        destruct (measure_serialized_returns v t) as [size ->] end; done.
Qed.

Lemma emissions_pass_on (x : Express) (es : list Emission) (t : Tele) :
  emitted (emissions x es t) = (emitted t ++ es)%list /\ tlogs (emissions x es t) = tlogs t.
Proof.
  revert t. induction es as [|e es IH]; intros t.
  - by rewrite app_nil_r.
  - cbn [emissions foldl]. fold (emissions x es (emit x e t).2).
    destruct (IH (emit x e t).2) as [-> ->].
    destruct (emit_passes_on x e t) as [-> ->]. by rewrite <- app_assoc.
Qed.

(** What the middleware does for a request whose response finished: every
    payload reaches Express as it was handed over, and the log holds exactly
    one entry, with method, path, status, size, duration, client address and
    user agent, unless the path contains [/logs/] anywhere, in which case it
    holds none. *)
Theorem finished_request_is_logged_once (x : Express) (req : Req) (startTime : Z)
    (es : list Emission) (c : Completion) :
  emitted (serve x req startTime es c) = es /\
  tlogs (serve x req startTime es c)
  = (if includes "/logs/" (path req) then []
     else [request_entry req startTime c (responseSize (emissions x es initial))]) /\
  (meta (request_entry req startTime c (responseSize (emissions x es initial)))).*1
  = entry_fields.
Proof.
  unfold serve, on_finish.
  destruct (emissions_pass_on x es initial) as [Hemit Hlogs].
  destruct (includes "/logs/" (path req)); cbn; rewrite ?Hemit, ?Hlogs; done.
Qed.

Lemma unserializable_payload_measures_zero_witness :
  ~ serializable VFunction /\
  json express_ok VFunction initial = (Return tt, mkTele 0 [ViaJson VFunction] []) /\
  tlogs (on_finish health_request 1700000000000 finished_ok
           (json express_ok VFunction initial).2).2
  = [mkLog Info "HTTP Request"
       [("method", VString "GET");
        ("path", VString "/health");
        ("status", VNumber (Finite 200));
        ("size", VNumber (Finite 0));
        ("duration", VString "250ms");
        ("ip", VString "203.0.113.7");
        ("userAgent", VUndefined);
        ("timestamp", VString "2023-11-14T22:13:20.250Z")]].
Proof.
  assert (~ serializable VFunction) as Hno by (intros [text Htext]; discriminate Htext).
  assert (VFunction <> VUndefined) as Hdef by discriminate.
  split; [exact Hno|].
  destruct (unserializable_payload_measures_zero express_ok VFunction initial
              (or_intror (conj Hno Hdef)))
    as (_ & Hjson & _ & Hlog).
  split; [exact Hjson|].
  destruct (Hlog health_request 1700000000000 finished_ok eq_refl)
    as (entry & Hentry & _).
  rewrite Hentry. vm_compute in Hentry. by injection Hentry as <-.
Defined.

(** C8 as stated fails: Express's own [res.json] and [res.send] serialize
    the payload themselves, so the wrapped emitters throw on a circular
    payload, after a size computation that did not. *)
Lemma circular_payload_fails_in_express :
  circular self_reference = true /\
  measure_serialized self_reference initial = (Return tt, initial) /\
  exists e,
    json express_ok self_reference initial
    = (Throw e, mkTele 0 [ViaJson self_reference] []) /\
    send express_ok (Value self_reference) initial
    = (Throw e, mkTele 0 [ViaSend (Value self_reference)] []).
Proof.
  split; [reflexivity|]. split; [reflexivity|].
  eexists. split; vm_compute; reflexivity.
Qed.

(** C9.  Every completed request outside the log-retrieval routes is to be
    logged once.  The guard of the [finish] listener tests for the substring
    [/logs/] instead of the route: a download from a storage bucket named
    [logs] is not under [/api/logs], completes, and leaves no entry. *)
Lemma bucket_named_logs_is_not_logged :
  under_logs_route (originalUrl bucket_request) = false /\
  tlogs (serve express_ok bucket_request 1700000000000
           [ViaSend (Buffer [Byte.x68; Byte.x69])] finished_ok) = [].
Proof. split; vm_compute; reflexivity. Qed.

(** ** Shutdown *)

Import Lifecycle.

Lemma calls_in_app_other (c c' : Call) (o : Outcome unit) (es : list Event) :
  c <> c' ->
  calls_in c (es ++ [Begin c'; outcome_event c' o]) = calls_in c es.
Proof.
  intros Hne. unfold calls_in. rewrite filter_app, length_app.
  rewrite filter_cons_False by (intros [= ->]; done).
  rewrite filter_cons_False by (destruct o; discriminate).
  cbn. lia.
Qed.

(** A teardown step inside its own [try]: it is called, its completion is
    recorded, a throw is logged, and control goes on. *)
Lemma guarded_step (c : Call) (o : nat -> Outcome unit) (msg : string) (p : Proc) :
  try_catch (run_nth c o) (fun error => log Error msg (error_meta error)) p
  = (Return tt,
     mkProc (events p ++ [Begin c; outcome_event c (o (calls_of c p))])
            (plogs p ++ error_log msg (o (calls_of c p)))
            (exited p)).
Proof.
  unfold run_nth, run, complete, record, log. eff.
  destruct (o (calls_of c p)) as [[]|e]; cbn; rewrite <- ?app_assoc, ?app_nil_r; done.
Qed.

Lemma cleanup_tail_runs (t : Teardown) (p : Proc) :
  cleanup_tail t p
  = (Return tt, mkProc (events p ++ tail_events t p) (plogs p ++ tail_logs t p) (Some 0%nat)).
Proof.
  unfold cleanup_tail.
  rewrite (bind_run _ _ _ _ _ (guarded_step _ _ _ _)).
  rewrite (bind_run _ _ _ _ _ (guarded_step _ _ _ _)).
  rewrite (bind_run _ _ _ _ _ (guarded_step _ _ _ _)).
  unfold process_exit, effect, calls_of, tail_events, tail_logs. cbn [events plogs exited].
  rewrite !calls_in_app_other by done.
  rewrite <- !app_assoc. reflexivity.
Qed.

Lemma calls_in_app (c : Call) (es es' : list Event) :
  Begin c ∉ es' -> calls_in c (es ++ es') = calls_in c es.
Proof.
  intros Hnot. unfold calls_in. rewrite filter_app, length_app.
  assert (filter (fun e => e = Begin c) es' = []) as ->; [|cbn; lia].
  induction es' as [|e r IH]; [done|].
  apply not_elem_of_cons in Hnot as [Hne Hnot].
  rewrite filter_cons_False by done. by apply IH.
Qed.

(** The synchronous steps do not depend on calls of [realtimeManager.close]. *)
Lemma tail_after_close (t : Teardown) (p q : Proc) (es : list Event) :
  events q = (events p ++ es)%list ->
  (forall e, e ∈ es -> e = Begin RealtimeClose \/ e = End RealtimeClose
                       \/ e = Failed RealtimeClose) ->
  tail_events t q = tail_events t p /\ tail_logs t q = tail_logs t p.
Proof.
  intros Hq Hes. unfold tail_events, tail_logs, calls_of. rewrite Hq.
  rewrite !calls_in_app; [done|..];
    intros Hin; apply Hes in Hin as [?|[?|?]]; discriminate.
Qed.

Lemma guarded_completion (c : Call) (o : Outcome unit) (msg : string) (p : Proc) :
  try_catch (complete c o) (fun error => log Error msg (error_meta error)) p
  = (Return tt,
     mkProc (events p ++ [outcome_event c o]) (plogs p ++ error_log msg o) (exited p)).
Proof.
  unfold complete, record, log. eff.
  destruct o as [[]|e]; cbn; rewrite ?app_nil_r; done.
Qed.

(** The resumed [cleanup] records how [close] completed, logs a rejection,
    runs the three remaining steps and exits with status 0. *)
Lemma cleanup_resume_runs (t : Teardown) (o : Outcome unit) (p : Proc) :
  cleanup_resume t o p
  = (Return tt,
     mkProc (events p ++ outcome_event RealtimeClose o :: tail_events t p)
            (plogs p ++ error_log "Error closing RealtimeManager" o ++ tail_logs t p)
            (Some 0%nat)).
Proof.
  unfold cleanup_resume.
  rewrite (bind_run _ _ _ _ _ (guarded_completion _ _ _ _)).
  rewrite cleanup_tail_runs. cbn [events plogs].
  destruct (tail_after_close t p
              (mkProc (events p ++ [outcome_event RealtimeClose o])
                 (plogs p ++ error_log "Error closing RealtimeManager" o) (exited p))
              [outcome_event RealtimeClose o] eq_refl) as [-> ->].
  { intros e Hin. apply list_elem_of_singleton in Hin as ->. destruct o; auto. }
  rewrite <- !app_assoc. reflexivity.
Qed.

Lemma bind_log {B} (l : Level) (msg : string) (m : list (string * JsValue))
    (f : unit -> Eff Proc B) (p : Proc) :
  (log l msg m ≫= f) p = f tt (mkProc (events p) (plogs p ++ [mkLog l msg m]) (exited p)).
Proof. reflexivity. Qed.

Lemma bind_record {B} (e : Event) (f : unit -> Eff Proc B) (p : Proc) :
  (record e ≫= f) p = f tt (mkProc (events p ++ [e]) (plogs p) (exited p)).
Proof. reflexivity. Qed.

(** [cleanup] up to its [await]: it logs, calls [close], and either
    suspends on the promise or, when the call itself threw, runs to the
    exit. *)
Lemma cleanup_start_runs (t : Teardown) (p : Proc) :
  cleanup_start t p
  = match realtime_close t (calls_of RealtimeClose p) with
    | Settles o =>
        (Return (Some o),
         mkProc (events p ++ [Begin RealtimeClose]) (plogs p ++ [shutting_down]) (exited p))
    | ThrowsAtCall e =>
        (Return None,
         mkProc (events p ++ Begin RealtimeClose :: Failed RealtimeClose :: tail_events t p)
                (plogs p ++ shutting_down
                   :: error_log "Error closing RealtimeManager" (Throw e) ++ tail_logs t p)
                (Some 0%nat))
    end.
Proof.
  unfold cleanup_start. rewrite bind_log, bind_record. cbn [events plogs exited].
  destruct (realtime_close t (calls_of RealtimeClose p)) as [e|o]; [|done].
  rewrite (bind_run _ _ _ _ _ (guarded_completion _ _ _ _)).
  rewrite (bind_run _ _ _ _ _ (cleanup_tail_runs _ _)). cbn [events plogs].
  match goal with |- context [tail_events t ?q] =>
    destruct (tail_after_close t p q [Begin RealtimeClose; Failed RealtimeClose])
      as [-> ->] end.
  { cbn [events outcome_event]. by rewrite <- app_assoc. }
  { intros ev Hin. rewrite !elem_of_cons, elem_of_nil in Hin. tauto. }
  unfold mret, Eff_ret. rewrite <- !app_assoc. reflexivity.
Qed.

(** C6.  Whatever each teardown action does, [cleanup] returns normally
    having called, in this order, the notification listener's [close], the
    socket hub's [close], the session store's [destroy] and the interval
    clear; it has logged one error for each of them that threw, and none
    otherwise; and it has exited with status 0. *)
Theorem cleanup_attempts_every_step (t : Teardown) (p : Proc) :
  cleanup t p
  = (Return tt,
     mkProc (events p
             ++ Begin RealtimeClose
                :: outcome_event RealtimeClose
                     (settled (realtime_close t (calls_of RealtimeClose p)))
                :: tail_events t p)
            (plogs p
             ++ shutting_down
                :: error_log "Error closing RealtimeManager"
                     (settled (realtime_close t (calls_of RealtimeClose p)))
                ++ tail_logs t p)
            (Some 0%nat)) /\
  began (cleanup t p).2 = (began p ++ teardown_order)%list.
Proof.
  assert (cleanup t p
          = (Return tt,
             mkProc (events p
                     ++ Begin RealtimeClose
                        :: outcome_event RealtimeClose
                             (settled (realtime_close t (calls_of RealtimeClose p)))
                        :: tail_events t p)
                    (plogs p
                     ++ shutting_down
                        :: error_log "Error closing RealtimeManager"
                             (settled (realtime_close t (calls_of RealtimeClose p)))
                        ++ tail_logs t p)
                    (Some 0%nat))) as Hrun.
  { unfold cleanup. pose proof (cleanup_start_runs t p) as Hstart.
    destruct (realtime_close t (calls_of RealtimeClose p)) as [e|o].
    - by rewrite (bind_run _ _ _ _ _ Hstart).
    - rewrite (bind_run _ _ _ _ _ Hstart), cleanup_resume_runs. cbn [events plogs settled].
      match goal with |- context [tail_events t ?q] =>
        destruct (tail_after_close t p q [Begin RealtimeClose] eq_refl) as [-> ->] end.
      { intros ev Hin. apply list_elem_of_singleton in Hin. auto. }
      rewrite <- !app_assoc. reflexivity. }
  split; [exact Hrun|]. rewrite Hrun. unfold began, tail_events. cbn [snd events].
  rewrite omap_app. f_equal.
  destruct (settled _), (socket_close _ _), (oauth_destroy _ _),
    (destroyEmailCooldownInterval _ _); reflexivity.
Qed.

(** *** A second signal *)

Lemma tail_events_final (t : Teardown) (p : Proc) (o1 : Outcome unit) :
  exists o2 o3 o4, outcome_event RealtimeClose o1 :: tail_events t p = final_steps o1 o2 o3 o4.
Proof. unfold tail_events, final_steps. eauto. Qed.

Lemma turn_keeps_shape (t : Teardown) (k : Tick) (l l' : Loop) (r : Outcome unit) :
  shutdown_shape (proc l) ->
  turn t k l = Some (r, l') ->
  r = Return tt /\ shutdown_shape (proc l').
Proof.
  unfold turn, shutdown_shape. intros Hshape Hturn.
  destruct (exited (proc l)) eqn:Hlive; [done|]. destruct Hshape as [n Hn].
  destruct k as [|i].
  - rewrite cleanup_start_runs in Hturn.
    destruct (realtime_close t (calls_of RealtimeClose (proc l))) as [e|o];
      injection Hturn as <- <-; (split; [done|]); cbn [proc exited events]; rewrite ?Hlive.
    + split; [done|].
      destruct (tail_events_final t (proc l) (Throw e)) as (o2 & o3 & o4 & Hfinal).
      exists (S n), (Throw e), o2, o3, o4. rewrite Hn. unfold pending_closes.
      rewrite replicate_S_end, <- app_assoc. cbn [app]. f_equal. f_equal. exact Hfinal.
    + exists (S n). rewrite Hn. unfold pending_closes. by rewrite replicate_S_end.
  - destruct (awaiting l !! i) as [o|]; [|done].
    rewrite cleanup_resume_runs in Hturn. injection Hturn as <- <-.
    split; [done|]. cbn [proc exited events]. split; [done|].
    destruct (tail_events_final t (proc l) o) as (o2 & o3 & o4 & Hfinal).
    exists n, o, o2, o3, o4. by rewrite Hn, Hfinal.
Qed.

Lemma turns_keep_shape (t : Teardown) (ks : list Tick) (l l' : Loop)
    (rs : list (Outcome unit)) :
  shutdown_shape (proc l) ->
  turns t ks l = Some (rs, l') ->
  Forall (fun r => r = Return tt) rs /\ shutdown_shape (proc l').
Proof.
  revert l rs. induction ks as [|k ks IH]; intros l rs Hshape Hturns; cbn [turns] in Hturns.
  - by injection Hturns as <- <-.
  - destruct (turn t k l) as [[r l1]|] eqn:Hturn; [|done].
    destruct (turns t ks l1) as [[rs1 l2]|] eqn:Hrest; [|done].
    injection Hturns as <- <-.
    destruct (turn_keeps_shape _ _ _ _ _ Hshape Hturn) as [-> Hshape1].
    destruct (IH _ _ Hshape1 Hrest) as [Hrs Hshape2]. by split; [constructor|].
Qed.

Lemma no_rerun_pending (n : nat) (rest : list Event) :
  no_rerun [] (pending_closes n ++ rest) = no_rerun [] rest.
Proof. induction n as [|n IH]; [done|]. exact IH. Qed.

Lemma calls_in_pending (c : Call) (n : nat) (rest : list Event) :
  c <> RealtimeClose -> calls_in c (pending_closes n ++ rest) = calls_in c rest.
Proof.
  intros Hc. unfold calls_in, pending_closes. rewrite filter_app, length_app.
  assert (filter (fun e => e = Begin c) (replicate n (Begin RealtimeClose)) = []) as ->; [|done].
  induction n as [|n IH]; [done|].
  cbn [replicate]. rewrite filter_cons_False by (intros [= <-]; done). exact IH.
Qed.

Lemma shape_is_safe (p : Proc) :
  shutdown_shape p ->
  no_rerun [] (events p) = true /\
  (forall c, c ∈ [SocketClose; OAuthDestroy; DestroyEmailCooldownInterval] ->
             (calls_of c p <= 1)%nat) /\
  (exited p = None \/ exited p = Some 0%nat).
Proof.
  unfold shutdown_shape, calls_of. destruct (exited p) as [code|].
  - intros [-> (n & o1 & o2 & o3 & o4 & ->)]. split_and!; [| |by right].
    + rewrite no_rerun_pending. by destruct o1, o2, o3, o4.
    + intros c Hc. rewrite !elem_of_cons, elem_of_nil in Hc.
      rewrite calls_in_pending by (intros ->; destruct Hc as [?|[?|[?|[]]]]; discriminate).
      destruct Hc as [->|[->|[->|[]]]]; destruct o1, o2, o3, o4; vm_compute; lia.
  - intros [n ->]. split_and!; [| |by left].
    + rewrite <- (app_nil_r (pending_closes n)). by rewrite no_rerun_pending.
    + intros c Hc. rewrite !elem_of_cons, elem_of_nil in Hc.
      rewrite <- (app_nil_r (pending_closes n)).
      rewrite calls_in_pending by (intros ->; destruct Hc as [?|[?|[?|[]]]]; discriminate).
      cbn. lia.
Qed.

(** C10.  Under any schedule of termination signals and settled promises,
    every run of the [cleanup] code completes normally; no teardown call
    begins after a call of the same name has ended or failed; the socket
    hub, the session store and the timers are torn down at most once; and
    the process either is still running or has exited with status 0. *)
Theorem repeated_shutdown_is_safe (t : Teardown) (ks : list Tick)
    (rs : list (Outcome unit)) (l : Loop) :
  turns t ks serving = Some (rs, l) ->
  Forall (fun r => r = Return tt) rs /\
  no_rerun [] (events (proc l)) = true /\
  (forall c, c ∈ [SocketClose; OAuthDestroy; DestroyEmailCooldownInterval] ->
             (calls_of c (proc l) <= 1)%nat) /\
  (exited (proc l) = None \/ exited (proc l) = Some 0%nat).
Proof.
  intros Hturns.
  assert (shutdown_shape (proc serving)) as Hserving by (by exists 0%nat).
  destruct (turns_keep_shape _ _ _ _ _ Hserving Hturns) as [Hrs Hshape].
  split; [exact Hrs|]. by apply shape_is_safe.
Qed.

Lemma repeated_shutdown_is_safe_witness :
  exists rs l,
    turns teardown_once [Signal; Signal; Settled 0%nat] serving = Some (rs, l) /\
    Forall (fun r => r = Return tt) rs /\
    no_rerun [] (events (proc l)) = true /\
    calls_of RealtimeClose (proc l) = 2%nat /\
    exited (proc l) = Some 0%nat.
Proof.
  destruct (turns teardown_once [Signal; Signal; Settled 0%nat] serving)
    as [[rs l]|] eqn:Hturns; [|vm_compute in Hturns; discriminate Hturns].
  exists rs, l. split; [reflexivity|].
  destruct (repeated_shutdown_is_safe _ _ _ _ Hturns) as (Hrs & Hrerun & _ & _).
  split; [exact Hrs|]. split; [exact Hrerun|].
  vm_compute in Hturns. injection Hturns as <- <-. split; reflexivity.
Defined.

(** ** Startup *)

Lemma boot_order_in_full_order : boot_order `sublist_of` full_order.
Proof.
  unfold boot_order, full_order.
  repeat first [apply sublist_nil | apply sublist_skip | apply sublist_cons].
Qed.

Ltac boot_case :=
  eexists; split; [lazy; reflexivity|]; split_and!; lazy; reflexivity.

(** What [initializeServer] does, call by call.  It always returns.  Its
    calls are made one after the other in source order (the four
    initializations, the seeding of the backend, the listener, the socket
    hub, the notification listener, the deployment sync), each one completed
    before the next begins, and the first call that throws is the last one
    made: the error is logged and the process exits with status 1.  A
    deployment sync whose promise is rejected later is not such a throw: it
    is logged and the process keeps running. *)
Lemma boot_runs_in_source_order (b : Boot) :
  boot_order `sublist_of` full_order /\
  exists p,
    initializeServer b booting = (Return tt, p) /\
    began p = attempted full_order (try_outcome b) /\
    events p = (c ← attempted full_order (try_outcome b);
                [Begin c; outcome_event c (step_outcome b c)]) /\
    exited p = (match first_failure full_order (try_outcome b) with
                | Some _ => Some 1%nat
                | None => None
                end) /\
    errors_of (plogs p)
    = (match first_failure full_order (try_outcome b) with
       | Some (_, e) => [mkLog Error "Failed to initialize server" (error_meta e)]
       | None => error_log "Failed to sync functions to Deno Subhosting"
                   (settled (syncDeployment b))
       end).
Proof.
  split; [apply boot_order_in_full_order|].
  destruct b as [o1 o2 o3 o4 o5 o6 o7 o8 d].
  destruct o1 as [[]|e1]; [|boot_case].
  destruct o2 as [[]|e2]; [|boot_case].
  destruct o3 as [[]|e3]; [|boot_case].
  destruct o4 as [[]|e4]; [|boot_case].
  destruct o5 as [[]|e5]; [|boot_case].
  destruct o6 as [[]|e6]; [|boot_case].
  destruct o7 as [[]|e7]; [|boot_case].
  destruct o8 as [[]|e8]; [|boot_case].
  destruct d as [e|[[]|e]]; boot_case.
Qed.

(** The later rejection of the detached deployment sync is no failure of
    the boot: the process keeps running. *)
Lemma rejected_sync_does_not_abort :
  fails (step_outcome boot_sync_rejected SyncDeployment) /\
  (initializeServer boot_sync_rejected booting).1 = Return tt /\
  exited (initializeServer boot_sync_rejected booting).2 = None /\
  began (initializeServer boot_sync_rejected booting).2 = full_order.
Proof. split; [exact I|]. split_and!; reflexivity. Qed.

Ltac boot_paths b :=
  destruct b as [o1 o2 o3 o4 o5 o6 o7 o8 d];
  destruct o1 as [[]|?]; [|shelve];
  destruct o2 as [[]|?]; [|shelve];
  destruct o3 as [[]|?]; [|shelve];
  destruct o4 as [[]|?]; [|shelve];
  destruct o5 as [[]|?]; [|shelve];
  destruct o6 as [[]|?]; [|shelve];
  destruct o7 as [[]|?]; [|shelve];
  destruct o8 as [[]|?]; [|shelve];
  destruct d as [?|[[]|?]].

(** The steps of the specification, decided on every way the boot can run:
    they begin in order; a step begins when the steps before it have ended;
    when nothing throws all are made; a step that throws is the end. *)
Lemma boot_steps_decided (b : Boot) :
  steps_begun (booted b) `prefix_of` boot_order /\
  Forall (fun c =>
            Begin c ∈ events (booted b) ->
            Forall (fun c' => End c' ∈ before_call c (events (booted b)))
              (earlier_steps c))
    boot_order /\
  (Forall (fun c => ~ fails (try_outcome b c)) full_order ->
   steps_begun (booted b) = boot_order /\ exited (booted b) = None) /\
  Forall (fun c =>
            fails (try_outcome b c) ->
            exited (booted b) = Some 1%nat /\
            Forall (fun c' => Begin c' ∉ events (booted b)) (later_steps c))
    boot_order.
Proof.
  destruct b as [[[]|?] [[]|?] [[]|?] [[]|?] [[]|?] [[]|?] [[]|?] [[]|?] [?|[[]|?]]];
    apply (bool_decide_unpack _); vm_compute; exact I.
Qed.

(** What comes before the first [Begin c] comes before every [Begin c]. *)
Lemma before_call_prefix (c : Call) (es es1 es2 : list Event) (e : Event) :
  es = (es1 ++ Begin c :: es2)%list -> e ∈ before_call c es -> e ∈ es1.
Proof.
  intros -> . unfold before_call.
  destruct (list_find _ _) as [[i x]|] eqn:Hfind.
  - apply list_find_Some in Hfind as (Hi & Hx & Hmin).
    assert (i <= length es1)%nat as Hle.
    { destruct (decide (i <= length es1)%nat) as [|Hgt]; [done|].
      exfalso. apply (Hmin (length es1) (Begin c)); [|lia|done].
      by rewrite lookup_app_r, Nat.sub_diag by lia. }
    rewrite take_app_le by done. intros Hin.
    apply elem_of_take in Hin as (j & Hj & _). by eapply list_elem_of_lookup_2.
  - apply list_find_None in Hfind. rewrite Forall_forall in Hfind.
    intros _. exfalso. apply (Hfind (Begin c)); [|done].
    rewrite elem_of_app, elem_of_cons. auto.
Qed.

Ltac split_steps l := repeat (destruct l as [|? l]; simplify_eq/=).

(** C7.  The steps the specification names (data store, object storage,
    log sink, parser module, HTTP listener, socket hub, change-notification
    listener, start of the deployment sync) run strictly one after the
    other in that order: whenever a step begins, every step named before it
    has already returned.  When no call of the boot throws, all eight steps
    are made and the process keeps running.  A step that throws aborts the
    boot: the process exits with status 1 and none of the steps named after
    it begins.  The last step is the start of the deployment sync, which is
    not awaited: it throws when the call itself does. *)
Theorem boot_is_sequential (b : Boot) :
  (forall l1 c' l2 c l3 es1 es2,
     [DatabaseInitialize; StorageInitialize; LogInitialize; InitSqlParser;
      Listen; SocketInitialize; RealtimeInitialize; SyncDeployment]
     = (l1 ++ c' :: l2 ++ c :: l3)%list ->
     events (booted b) = (es1 ++ Begin c :: es2)%list ->
     End c' ∈ es1) /\
  (Forall (fun c => ~ fails (try_outcome b c))
     [DatabaseInitialize; StorageInitialize; LogInitialize; InitSqlParser; SeedBackend;
      Listen; SocketInitialize; RealtimeInitialize; SyncDeployment] ->
   Forall (fun c => Begin c ∈ events (booted b))
     [DatabaseInitialize; StorageInitialize; LogInitialize; InitSqlParser;
      Listen; SocketInitialize; RealtimeInitialize; SyncDeployment] /\
   exited (booted b) = None) /\
  (forall l1 c l2,
     [DatabaseInitialize; StorageInitialize; LogInitialize; InitSqlParser;
      Listen; SocketInitialize; RealtimeInitialize; SyncDeployment]
     = (l1 ++ c :: l2)%list ->
     fails (try_outcome b c) ->
     exited (booted b) = Some 1%nat /\
     Forall (fun c' => Begin c' ∉ events (booted b)) l2).
Proof.
  destruct (boot_steps_decided b) as (_ & Hseq & Hall & Habort).
  split_and!.
  - intros l1 c' l2 c l3 es1 es2 HL Hev.
    assert (Begin c ∈ events (booted b)) as Hbegun
      by (rewrite Hev, elem_of_app, elem_of_cons; auto).
    rewrite Forall_forall in Hseq.
    assert (c ∈ boot_order) as Hc.
    { unfold boot_order. rewrite HL, elem_of_app, elem_of_cons, elem_of_app, elem_of_cons.
      auto. }
    specialize (Hseq c Hc Hbegun). rewrite Forall_forall in Hseq.
    apply (before_call_prefix _ _ _ _ _ Hev), Hseq.
    clear -HL. split_steps l1; split_steps l2; apply (bool_decide_unpack _); exact I.
  - intros Hreturn. destruct (Hall Hreturn) as [Hsteps Hrun]. split; [|done].
    apply Forall_forall. intros c Hc.
    assert (c ∈ steps_begun (booted b)) as Hin by (by rewrite Hsteps).
    apply list_elem_of_filter in Hin as [_ Hin]. unfold began in Hin.
    apply list_elem_of_omap in Hin as (e & He & Hcall). by destruct e; simplify_eq.
  - intros l1 c l2 HL Hfails. rewrite Forall_forall in Habort.
    assert (c ∈ boot_order) as Hc.
    { unfold boot_order. rewrite HL, elem_of_app, elem_of_cons. auto. }
    destruct (Habort c Hc Hfails) as [Hexit Hlater]. split; [done|].
    assert (later_steps c = l2) as <-; [|done].
    clear -HL. split_steps l1; reflexivity.
Qed.

Lemma boot_is_sequential_witness :
  fails (try_outcome Vocabulary.boot_storage_fails StorageInitialize) /\
  exited (booted Vocabulary.boot_storage_fails) = Some 1%nat /\
  Forall (fun c' => Begin c' ∉ events (booted Vocabulary.boot_storage_fails))
    [LogInitialize; InitSqlParser; Listen; SocketInitialize; RealtimeInitialize;
     SyncDeployment].
Proof.
  split; [exact I|].
  destruct (boot_is_sequential Vocabulary.boot_storage_fails) as (_ & _ & Habort).
  exact (Habort [DatabaseInitialize] StorageInitialize
           [LogInitialize; InitSqlParser; Listen; SocketInitialize; RealtimeInitialize;
            SyncDeployment] eq_refl I).
Defined.

(* ===================================================================== *)
(** * Further properties of the code *)
(* ===================================================================== *)

Import Vocabulary.

(** ** The gateway: headers, target and query *)

Lemma string_headers_snoc (hs : list (string * HeaderValue)) (kv : string * HeaderValue) :
  string_headers (hs ++ [kv])
  = match kv.2 with
    | Single v => <[kv.1 := v]> (string_headers hs)
    | _ => string_headers hs
    end.
Proof. unfold string_headers. by rewrite foldl_app. Qed.

Lemma string_headers_lookup (hs : list (string * HeaderValue)) (k v : string) :
  NoDup hs.*1 ->
  string_headers hs !! k = Some v <-> (k, Single v) ∈ hs.
Proof.
  induction hs as [|[k' hv] hs IH] using rev_ind.
  - intros _. unfold string_headers. cbn. rewrite lookup_empty, elem_of_nil.
    split; [done|tauto].
  - rewrite fmap_app. intros Hnd. apply NoDup_app in Hnd as (Hnd & Hnew & _).
    specialize (IH Hnd). rewrite string_headers_snoc, elem_of_app, list_elem_of_singleton.
    assert ((k, Single v) ∈ hs -> k <> k') as Hother.
    { intros Hin -> . apply (Hnew k'); [|cbn; left].
      apply list_elem_of_fmap. by exists (k', Single v). }
    cbn [fst snd]. destruct hv as [v'|vs|].
    + destruct (decide (k = k')) as [->|Hk].
      * rewrite lookup_insert_eq. split.
        -- intros [= ->]. by right.
        -- intros [Hin | [= ->]]; [by apply Hother in Hin|done].
      * rewrite lookup_insert_ne by done. rewrite IH. split; [tauto|].
        intros [Hin | [= -> _]]; done.
    + rewrite IH. split; [tauto|]. by intros [Hin | [=]].
    + rewrite IH. split; [tauto|]. by intros [Hin | [=]].
Qed.

Lemma prepare_slash (slug : string) :
  Url.prepare ("/" +:+ slug) = String "/" (slug_as_parsed slug).
Proof.
  change ("/" +:+ slug) with (String "/" slug). unfold Url.prepare, slug_as_parsed.
  cbn [Url.strip_leading]. change (Url.is_c0_or_space "/"%char) with false. cbn match.
  cbn [Url.strip_trailing]. change (Url.is_c0_or_space "/"%char) with false. cbn match.
  by destruct (Url.strip_trailing slug).
Qed.

Lemma end_segment_not_nil (p : list string) (buffer : string) :
  Url.end_segment false p buffer <> [].
Proof.
  unfold Url.end_segment.
  destruct (Url.is_double_dot buffer); [|destruct (Url.is_single_dot buffer)];
    intros H; by apply app_eq_nil in H as [_ ?].
Qed.

(** The path state keeps scheme, credentials and host of the base, and
    leaves a path of at least one segment. *)
Lemma path_state_origin (b : Url.URL) (input : string) (p : list string)
    (buffer : string) :
  Url.scheme (Url.path_state b input p buffer) = Url.scheme b /\
  Url.userinfo (Url.path_state b input p buffer) = Url.userinfo b /\
  Url.host (Url.path_state b input p buffer) = Url.host b /\
  Url.path (Url.path_state b input p buffer) <> [].
Proof.
  revert p buffer.
  induction input as [|c rest IH]; intros p buffer; cbn [Url.path_state].
  - split_and!; try reflexivity. apply end_segment_not_nil.
  - destruct (Url.is_separator c); [apply IH|].
    destruct (Url.code c =? 63)%nat.
    { destruct (Url.query_state rest). split_and!; try reflexivity.
      apply end_segment_not_nil. }
    destruct (Url.code c =? 35)%nat; [|apply IH].
    split_and!; try reflexivity. apply end_segment_not_nil.
Qed.

Lemma href_origin (u : Url.URL) :
  Url.path u <> [] -> exists rest, Url.href u = Url.origin_text u +:+ "/" +:+ rest.
Proof.
  intros Hpath. destruct u as [sc ui ho [|seg r] q f]; [done|].
  unfold Url.href, Url.origin_text.
  cbn [Url.scheme Url.userinfo Url.host Url.path Url.query Url.fragment Url.serialize_path].
  eexists. rewrite !append_assoc. reflexivity.
Qed.

Section GatewayForwarding.
Variable parse_special : string -> option Url.URL.
Variable URL_other : string -> string -> Outcome Url.URL.

(** X1.  The upstream request carries, under every name but [host], exactly
    the incoming headers whose value is a single string, each with its
    value: a header with several values or none is dropped, and nothing is
    added.  The names of [req.headers] are the keys of an object, hence
    distinct; [__proto__] is left aside, a name under which an assignment to
    an object literal creates no property. *)
Theorem string_headers_are_forwarded (w : World) (req : Request) (s0 s1 : Sink)
    (request : FetchRequest) (k v : string) :
  upstream_request parse_special URL_other w req s0 = (Return request, s1) ->
  NoDup (headers req).*1 ->
  k <> "host" ->
  k <> "__proto__" ->
  f_headers request !! k = Some v <-> (k, Single v) ∈ headers req.
Proof.
  intros H Hnd Hhost _.
  apply upstream_request_returns in H
    as (base & target & incoming & b & _ & _ & _ & _ & _ & ->).
  cbn [f_headers]. rewrite lookup_insert_ne by done.
  by apply string_headers_lookup.
Qed.

(** X2.  The upstream call stays on the selected runtime: when the slug, as
    the URL parser reads it, does not start with [/] or a backslash, the
    target is the scheme and authority of the selected base followed by a
    path, and the [host] header is the host of that base.  Dots, later
    slashes, [?], [#] or [@] in the slug change the path, the query or the
    fragment only. *)
Theorem upstream_stays_on_selected_runtime (w : World) (req : Request) (s0 s1 : Sink)
    (request : FetchRequest) (base : string) (b : Url.URL) :
  upstream_request parse_special URL_other w req s0 = (Return request, s1) ->
  resolveBaseUrl w s0 = (Return base, s0) ->
  parse_special base = Some b ->
  Url.starts_with_separator (slug_as_parsed (slug req)) = false ->
  (exists rest, f_url request = Url.origin_text b +:+ "/" +:+ rest) /\
  f_headers request !! "host" = Some (Url.host b).
Proof.
  intros H Hbase Hparse Hslug.
  apply upstream_request_returns in H
    as (base' & target & incoming & body & _ & Hbase' & Htarget & _ & _ & ->).
  assert (base' = base) as -> by congruence.
  unfold Url.URL_new in Htarget. rewrite prepare_slash, Hparse, Hslug in Htarget.
  injection Htarget as <-.
  destruct (path_state_origin b (slug_as_parsed (slug req)) [] EmptyString)
    as (Hscheme & Huser & Hhost & Hpath).
  cbn [f_url f_headers]. split.
  - destruct (href_origin
                (Url.set_search
                   (Url.path_state b (slug_as_parsed (slug req)) [] EmptyString)
                   (Url.search incoming)) Hpath) as [rest Hhref].
    exists rest. rewrite Hhref. unfold Url.origin_text, Url.set_search.
    cbn [Url.scheme Url.userinfo Url.host]. by rewrite Hscheme, Huser, Hhost.
  - by rewrite lookup_insert_eq, Hhost.
Qed.

End GatewayForwarding.

Lemma string_headers_are_forwarded_witness :
  exists request s1,
    upstream_request Url.parse_special_sample Url.URL_other_sample
      (local_world fetch_refused) hello_request fresh_sink = (Return request, s1) /\
    NoDup (headers hello_request).*1 /\
    (f_headers request !! "user-agent" = Some "curl/8.5.0"
     <-> ("user-agent", Single "curl/8.5.0") ∈ headers hello_request).
Proof.
  destruct (upstream_request Url.parse_special_sample Url.URL_other_sample
              (local_world fetch_refused) hello_request fresh_sink)
    as [[request|e] s1] eqn:Hrun; [|vm_compute in Hrun; discriminate Hrun].
  assert (NoDup (headers hello_request).*1) as Hnd
    by (apply (bool_decide_unpack _); vm_compute; exact I).
  exists request, s1. split; [reflexivity|]. split; [exact Hnd|].
  refine (string_headers_are_forwarded _ _ _ _ _ _ _ _ _ Hrun Hnd _ _); discriminate.
Defined.

Lemma upstream_stays_on_selected_runtime_witness :
  exists request s1,
    upstream_request Url.parse_special_sample Url.URL_other_sample
      (managed_world fetch_refused) greet_request fresh_sink = (Return request, s1) /\
    (exists rest, f_url request = "https://fn-prod.example.net" +:+ "/" +:+ rest) /\
    f_headers request !! "host" = Some "fn-prod.example.net".
Proof.
  destruct (upstream_request Url.parse_special_sample Url.URL_other_sample
              (managed_world fetch_refused) greet_request fresh_sink)
    as [[request|e] s1] eqn:Hrun; [|vm_compute in Hrun; discriminate Hrun].
  exists request, s1. split; [reflexivity|].
  exact (upstream_stays_on_selected_runtime _ _ _ _ _ _ _
           "https://fn-prod.example.net"
           (Url.mkURL "https" EmptyString "fn-prod.example.net" [EmptyString] None None)
           Hrun eq_refl eq_refl eq_refl).
Defined.

(** X3.  Copying the query of the request onto the target loses nothing and
    encodes nothing twice: for a request URL read by the path state, the
    [search] of the target after [targetUrl.search = incomingUrl.search] is
    the [search] of the parsed request URL, whatever the target was. *)
Theorem search_setter_keeps_parsed_search (b t : Url.URL) (input : string)
    (p : list string) (buffer : string) :
  Url.search (Url.set_search t (Url.search (Url.path_state b input p buffer)))
  = Url.search (Url.path_state b input p buffer).
Proof.
  pose proof (path_state_query_plain b input p buffer) as Hplain.
  rewrite (search_of_query (Url.path_state b input p buffer) _ eq_refl).
  destruct (Url.query (Url.path_state b input p buffer)) as [q|] eqn:Hq.
  - rewrite (search_of_query (Url.set_search t (Url.search_text (Some q))) _
               (set_search_plain t (Some q) ltac:(intros ? [= <-]; auto))).
    by destruct q.
  - reflexivity.
Qed.

(** ** Telemetry: the size of a JSON response *)

Lemma Z_to_string_not_empty (z : Z) : Z_to_string z <> EmptyString.
Proof.
  unfold Z_to_string, NilZero.string_of_int, NilZero.string_of_uint.
  destruct (Z.to_int z) as [d|d]; destruct d; discriminate.
Qed.

(** [JSON.stringify] never yields the empty text. *)
Lemma JSON_text_not_empty (v : JsValue) (text : string) :
  JSON_stringify v = Return (Some text) -> text <> EmptyString.
Proof.
  unfold JSON_stringify.
  destruct v as [| |b|n|s|z| |items|props|]; cbn [SerializeJSONProperty];
    try discriminate.
  - by intros [= <-].
  - intros [= <-]. by destruct b.
  - destruct n; intros [= <-]; try done. apply Z_to_string_not_empty.
  - by intros [= <-].
  - destruct (serialize_elements _ _); by intros [= <-].
  - destruct (serialize_members _ _); by intros [= <-].
Qed.

(** X4.  For a payload other than [undefined], the wrapped [res.json]
    measures size 0 exactly when [JSON.stringify] yields no text for it: a
    payload that serializes is never measured as empty. *)
Theorem json_size_is_zero_only_when_unserializable (x : Express) (data : JsValue)
    (t : Tele) :
  data <> VUndefined ->
  responseSize (json x data t).2 = 0%nat <-> ~ serializable data.
Proof.
  intros Hdef. split.
  - intros Hsize [text Htext].
    assert (json x data t
            = (originalJson x data,
               mkTele (Buffer_byteLength text) (emitted t ++ [ViaJson data]) (tlogs t)))
      as Hjson.
    { unfold json, pass_on, measure_serialized, set_size, byteLength_of. eff.
      destruct data; try done; by rewrite Htext. }
    rewrite Hjson in Hsize. cbn in Hsize.
    apply JSON_text_not_empty in Htext. by destruct text.
  - intros Hno. pose proof (measure_unserializable data t Hno) as Hm.
    unfold json, pass_on. eff. destruct data; try done; by rewrite Hm.
Qed.

Lemma json_size_is_zero_only_when_unserializable_witness :
  self_reference <> VUndefined /\
  (responseSize (json express_ok self_reference initial).2 = 0%nat
   <-> ~ serializable self_reference).
Proof.
  assert (self_reference <> VUndefined) as Hdef by discriminate.
  split; [exact Hdef|].
  exact (json_size_is_zero_only_when_unserializable express_ok self_reference initial Hdef).
Defined.

(** ** Shutdown and startup *)

Lemma calls_in_add (c : Call) (es es' : list Event) :
  calls_in c (es ++ es') = (calls_in c es + calls_in c es')%nat.
Proof. unfold calls_in. by rewrite filter_app, length_app. Qed.

Lemma tail_has_no_close (t : Teardown) (p : Proc) (e : Event) :
  (e = End RealtimeClose \/ e = Failed RealtimeClose) ->
  calls_in RealtimeClose (e :: tail_events t p) = 0%nat.
Proof.
  unfold tail_events.
  intros [-> | ->];
    destruct (socket_close _ _), (oauth_destroy _ _), (destroyEmailCooldownInterval _ _);
    reflexivity.
Qed.

Lemma turn_counts_close (t : Teardown) (k : Tick) (l l' : Loop) (r : Outcome unit) :
  turn t k l = Some (r, l') ->
  calls_of RealtimeClose (proc l')
  = (calls_of RealtimeClose (proc l) + signals [k])%nat.
Proof.
  unfold turn, calls_of. intros Hturn.
  destruct (exited (proc l)); [done|]. destruct k as [|i].
  - rewrite cleanup_start_runs in Hturn.
    destruct (realtime_close t (calls_of RealtimeClose (proc l))) as [e|o];
      injection Hturn as <- <-; cbn [proc events]; rewrite calls_in_add; f_equal;
      try reflexivity.
    change (Begin RealtimeClose :: Failed RealtimeClose :: tail_events t (proc l))
      with ([Begin RealtimeClose] ++ Failed RealtimeClose :: tail_events t (proc l))%list.
    rewrite calls_in_add, tail_has_no_close by auto. reflexivity.
  - destruct (awaiting l !! i) as [o|]; [|done].
    rewrite cleanup_resume_runs in Hturn. injection Hturn as <- <-.
    cbn [proc events]. rewrite calls_in_add, tail_has_no_close by (destruct o; auto).
    reflexivity.
Qed.

Lemma turns_count_close (t : Teardown) (ks : list Tick) (l l' : Loop)
    (rs : list (Outcome unit)) :
  turns t ks l = Some (rs, l') ->
  calls_of RealtimeClose (proc l')
  = (calls_of RealtimeClose (proc l) + signals ks)%nat.
Proof.
  revert l rs. induction ks as [|k ks IH]; intros l rs Hturns; cbn [turns] in Hturns.
  - injection Hturns as <- <-. unfold signals. cbn. lia.
  - destruct (turn t k l) as [[r l1]|] eqn:Hturn; [|done].
    destruct (turns t ks l1) as [[rs1 l2]|] eqn:Hrest; [|done].
    injection Hturns as <- <-.
    rewrite (IH _ _ Hrest), (turn_counts_close _ _ _ _ _ Hturn).
    unfold signals. rewrite (filter_app _ [k] ks), length_app. lia.
Qed.

(** X5.  Nothing keeps a second signal from starting the teardown again:
    in every schedule the event loop can run, the notification listener's
    [close] has been called once for each termination signal received. *)
Theorem close_is_called_once_per_signal (t : Teardown) (ks : list Tick)
    (rs : list (Outcome unit)) (l : Loop) :
  turns t ks serving = Some (rs, l) ->
  calls_of RealtimeClose (proc l) = signals ks.
Proof. intros Hturns. by rewrite (turns_count_close _ _ _ _ _ Hturns). Qed.

Lemma close_is_called_once_per_signal_witness :
  exists rs l,
    turns teardown_once [Signal; Signal; Settled 0%nat] serving = Some (rs, l) /\
    calls_of RealtimeClose (proc l) = 2%nat.
Proof.
  destruct (turns teardown_once [Signal; Signal; Settled 0%nat] serving)
    as [[rs l]|] eqn:Hturns; [|vm_compute in Hturns; discriminate Hturns].
  exists rs, l. split; [reflexivity|].
  exact (close_is_called_once_per_signal _ _ _ _ Hturns).
Defined.

(** X6.  A call of the boot sequence begins only when every call before it
    in the sequence has returned: the listener is bound after the data
    store, the storage, the log sink, the parser and the seeding; the socket
    hub is attached after the listener; the notification listener starts
    after all of them; the deployment sync is fired last. *)
Theorem boot_calls_wait_for_earlier_ones (b : Boot) :
  Forall (fun c =>
            Begin c ∈ events (initializeServer b booting).2 ->
            Forall (fun c' => End c' ∈ events (initializeServer b booting).2) (before c))
         full_order.
Proof.
  unshelve (boot_paths b); apply (bool_decide_unpack _); vm_compute; exact I.
Qed.

(** X7.  A process that is still running when [initializeServer] is done
    has completed every initialization, and has fired the deployment sync:
    it never serves with a subsystem half-initialized. *)
Theorem running_after_boot_means_initialized (b : Boot) :
  exited (initializeServer b booting).2 = None ->
  Forall (fun c => End c ∈ events (initializeServer b booting).2) initializations /\
  Begin SyncDeployment ∈ events (initializeServer b booting).2.
Proof.
  unshelve (boot_paths b); intros Hrun; try discriminate Hrun;
    (split; apply (bool_decide_unpack _); vm_compute; exact I).
Qed.

Lemma running_after_boot_means_initialized_witness :
  exited (initializeServer boot_sync_rejected booting).2 = None /\
  Forall (fun c => End c ∈ events (initializeServer boot_sync_rejected booting).2)
    initializations /\
  Begin SyncDeployment ∈ events (initializeServer boot_sync_rejected booting).2.
Proof.
  split; [reflexivity|].
  exact (running_after_boot_means_initialized boot_sync_rejected eq_refl).
Defined.

(** ** The migration bootstrap script *)

Import Bootstrap.

Ltac bootstrap_unfold :=
  unfold script, bootstrapMigrations, with_client, move_table, new_table_exists,
    migration_failed, try_finally, query, perform, Bootstrap.log, set_exitCode,
    Bootstrap.process_exit, statements;
  eff.

Ltac bootstrap_paths :=
  repeat first
    [ progress cbn
    | match goal with
      | |- context [match ?o with Return _ => _ | Throw _ => _ end] => destruct o eqn:?
      | |- context [if ?b then _ else _] => destruct b eqn:?
      end ].

(** Every way the script can run, for a database given by its answers. *)
Ltac bootstrap_runs url db :=
  let o := fresh "o" in
  let r := fresh "r" in
  let Hrun := fresh "Hrun" in
  let property := fresh "property" in
  let Hproperty := fresh "Hproperty" in
  destruct (script url db fresh) as [o r] eqn:Hrun; cbn [fst snd];
  match goal with |- ?G => remember G as property eqn:Hproperty end;
  revert Hrun;
  destruct db as [np cn rs rl pe];
  destruct url as [[|? ?]|]; unfold url_missing in Hproperty; bootstrap_unfold;
  cbn [new_Pool connect respond release pool_end] in *;
  bootstrap_paths;
  intros Hrun; injection Hrun as <- <-; subst property.

(** X8.  The script never throws, and it ends with status 1 exactly when
    [DATABASE_URL] is missing or empty or one of its calls into the driver
    threw; otherwise with status 0. *)
Theorem bootstrap_exit_status (url : option string) (db : Database) :
  (script url db fresh).1 = Return tt /\
  exit_status (script url db fresh).2
  = (if url_missing url || negb (forallb snd (ops (script url db fresh).2))
     then 1 else 0)%nat.
Proof. bootstrap_runs url db; split; reflexivity. Qed.

(** X9.  Whatever fails, the script closes what it opened, once and at the
    end: its last calls are [client.release()] exactly when [pool.connect()]
    had returned, then [pool.end()] exactly when the pool had been created;
    no other call follows them. *)
Theorem bootstrap_closes_what_it_opened (url : option string) (db : Database) :
  (ops (script url db fresh).2).*1
  = (filter opens_or_queries (ops (script url db fresh).2).*1
     ++ closing (bool_decide ((Connect, true) ∈ ops (script url db fresh).2))
                (bool_decide ((NewPool, true) ∈ ops (script url db fresh).2)))%list.
Proof. bootstrap_runs url db; vm_compute; reflexivity. Qed.

(** X10.  A transaction that was begun is closed: after a successful
    [BEGIN], either [COMMIT] succeeded and no [ROLLBACK] was sent, or a
    [ROLLBACK] was sent and no [COMMIT] succeeded.  [COMMIT] is sent only
    after both [ALTER TABLE] statements succeeded, and [ROLLBACK] only after
    one of the three statements of the transaction failed. *)
Theorem bootstrap_transaction_is_closed (url : option string) (db : Database) :
  ((Query BeginTx, true) ∈ ops (script url db fresh).2 ->
   ((Query Commit, true) ∈ ops (script url db fresh).2
    /\ ~ sent Rollback (script url db fresh).2)
   \/ (sent Rollback (script url db fresh).2
       /\ (Query Commit, true) ∉ ops (script url db fresh).2)) /\
  (sent Commit (script url db fresh).2 ->
   (Query MoveTable, true) ∈ ops (script url db fresh).2
   /\ (Query RenameTable, true) ∈ ops (script url db fresh).2) /\
  (sent Rollback (script url db fresh).2 ->
   (Query BeginTx, true) ∈ ops (script url db fresh).2
   /\ ((Query MoveTable, false) ∈ ops (script url db fresh).2
       \/ (Query RenameTable, false) ∈ ops (script url db fresh).2
       \/ (Query Commit, false) ∈ ops (script url db fresh).2)).
Proof.
  unfold sent. bootstrap_runs url db; apply (bool_decide_unpack _); vm_compute; exact I.
Qed.

Ltac old_table_only :=
  match goal with
  | H : ?a && negb ?b = true |- _ =>
      apply andb_true_iff in H as [-> H]; apply negb_true_iff in H as ->
  end.

(** X11.  The tracking table is touched only when it has to move: a
    statement of the transaction ([BEGIN], either [ALTER TABLE], [COMMIT],
    [ROLLBACK]) is sent only when the first check found
    [public._migrations] and the second did not find [system.migrations]. *)
Theorem bootstrap_moves_only_the_old_table (url : option string) (db : Database)
    (q : Statement) :
  q ∈ transaction ->
  sent q (script url db fresh).2 ->
  respond db [] CheckOldTable = Return true /\
  respond db [CheckOldTable] CheckNewTable = Return false.
Proof.
  unfold sent. bootstrap_runs url db;
    first [ by old_table_only
          | intros Hq Hs; exfalso; revert q Hq Hs;
            refine (proj1 (Forall_forall _ transaction) _);
            apply (bool_decide_unpack _); vm_compute; exact I ].
Qed.

Lemma bootstrap_moves_only_the_old_table_witness :
  RenameTable ∈ transaction /\
  sent RenameTable (script (Some "postgres://db") rename_fails fresh).2 /\
  respond rename_fails [] CheckOldTable = Return true /\
  respond rename_fails [CheckOldTable] CheckNewTable = Return false.
Proof.
  assert (RenameTable ∈ transaction) as Hq by (apply (bool_decide_unpack _); exact I).
  assert (sent RenameTable (script (Some "postgres://db") rename_fails fresh).2) as Hs
    by (right; apply (bool_decide_unpack _); vm_compute; exact I).
  split; [exact Hq|]. split; [exact Hs|].
  exact (bootstrap_moves_only_the_old_table _ _ _ Hq Hs).
Defined.

(** X12.  Once the pool is created, the client connected and both checks
    answered, [CREATE SCHEMA IF NOT EXISTS system] is sent exactly when one
    of the two tables exists: on a database that holds neither table the
    script creates no schema. *)
Theorem bootstrap_creates_schema_for_a_table (url : option string) (db : Database)
    (old new : bool) :
  url_missing url = false ->
  new_Pool db = Return tt ->
  connect db = Return tt ->
  respond db [] CheckOldTable = Return old ->
  respond db [CheckOldTable] CheckNewTable = Return new ->
  sent CreateSchema (script url db fresh).2 <-> old || new = true.
Proof.
  unfold sent. bootstrap_runs url db; intros Hurl Hp Hc Ho Hn; simplify_eq;
    match goal with
    | H : ?a && negb ?b = _ |- _ => destruct a, b; try discriminate H
    end;
    apply (bool_decide_unpack _); vm_compute; exact I.
Qed.

Lemma bootstrap_creates_schema_for_a_table_witness :
  url_missing (Some "postgres://db") = false /\
  (sent CreateSchema (script (Some "postgres://db") empty_database fresh).2
   <-> false || false = true).
Proof.
  split; [reflexivity|].
  exact (bootstrap_creates_schema_for_a_table (Some "postgres://db") empty_database
           false false eq_refl eq_refl eq_refl eq_refl eq_refl).
Defined.

(** X13.  Status 0 means the work was done: the pool was created, the
    client acquired, both checks and the role block succeeded, the client
    was released and the pool ended; and when the old table was there
    without the new one, the schema creation and every statement of the
    move, up to [COMMIT], succeeded. *)
Theorem bootstrap_success_means_migrated (url : option string) (db : Database) :
  exit_status (script url db fresh).2 = 0%nat ->
  Forall (fun op => (op, true) ∈ ops (script url db fresh).2)
    [NewPool; Connect; Query CheckOldTable; Query CheckNewTable; Query EnsureRoles;
     Release; PoolEnd] /\
  (respond db [] CheckOldTable = Return true ->
   respond db [CheckOldTable] CheckNewTable = Return false ->
   Forall (fun q => (Query q, true) ∈ ops (script url db fresh).2)
     [CreateSchema; BeginTx; MoveTable; RenameTable; Commit]).
Proof.
  bootstrap_runs url db; intros Hstatus; try discriminate Hstatus;
    (split; [apply (bool_decide_unpack _); vm_compute; exact I|]);
    intros Ho Hn; try discriminate;
    first [ apply (bool_decide_unpack _); vm_compute; exact I
          | simplify_eq; discriminate ].
Qed.

Lemma bootstrap_success_means_migrated_witness :
  exit_status (script (Some "postgres://db") legacy_database fresh).2 = 0%nat /\
  Forall (fun op => (op, true) ∈ ops (script (Some "postgres://db") legacy_database fresh).2)
    [NewPool; Connect; Query CheckOldTable; Query CheckNewTable; Query EnsureRoles;
     Release; PoolEnd] /\
  Forall (fun q => (Query q, true) ∈ ops (script (Some "postgres://db") legacy_database fresh).2)
    [CreateSchema; BeginTx; MoveTable; RenameTable; Commit].
Proof.
  assert (exit_status (script (Some "postgres://db") legacy_database fresh).2 = 0%nat)
    as Hstatus by (vm_compute; reflexivity).
  destruct (bootstrap_success_means_migrated _ _ Hstatus) as [Hcalls Hmove].
  split; [exact Hstatus|]. split; [exact Hcalls|].
  exact (Hmove eq_refl eq_refl).
Defined.
